(** * Ansible AI Connect: the formatter module

    A shallow embedding of [ansible_ai_connect/ai/api/formatter.py].

    Python strings are sequences of Unicode code points; they are modelled as
    lists of code points so that [str.isspace], [str.strip] and [str.split]
    keep their Unicode meaning. *)

From Stdlib Require Import String Ascii NArith ZArith Lia Bool List.
Import ListNotations.
Open Scope list_scope.

(* ================================================================== *)
(** ** Python [str] operations used by the formatter *)
(* ================================================================== *)

Module PyStr.

Definition char := N.
Definition str := list char.

(** A literal: every character of a Rocq string taken as its code point. *)
Definition py (s : string) : str := map N_of_ascii (list_ascii_of_string s).

Definition nl : char := 10%N.
Definition colon : char := 58%N.
Definition space : char := 32%N.

Definition char_eqb (a b : char) : bool := N.eqb a b.

Fixpoint str_eqb (a b : str) : bool :=
  match a, b with
  | [], [] => true
  | x :: a', y :: b' => char_eqb x y && str_eqb a' b'
  | _, _ => false
  end.

(** [str.isspace] on one character: the code points CPython classifies as
    whitespace (the same table drives [strip] and the argument-less
    [split]). *)
Definition isspace (c : char) : bool :=
  (((9 <=? c) && (c <=? 13)) || ((28 <=? c) && (c <=? 32))
   || (c =? 133) || (c =? 160) || (c =? 5760)
   || ((8192 <=? c) && (c <=? 8202))
   || (c =? 8232) || (c =? 8233) || (c =? 8239) || (c =? 8287)
   || (c =? 12288))%N.

(** [s.startswith(p)] *)
Fixpoint startswith (p s : str) : bool :=
  match p, s with
  | [], _ => true
  | x :: p', y :: s' => char_eqb x y && startswith p' s'
  | _ :: _, [] => false
  end.

(** The first occurrence of [sep] in [s]: the text before it and the text
    after it; [None] when [sep] does not occur. *)
Fixpoint find_split (sep s : str) : option (str * str) :=
  if startswith sep s then Some ([], skipn (length sep) s)
  else match s with
       | [] => None
       | c :: s' =>
           match find_split sep s' with
           | Some (b, a) => Some (c :: b, a)
           | None => None
           end
       end.

(** [s.partition(sep)] *)
Definition partition (sep s : str) : str * str * str :=
  match find_split sep s with
  | Some (b, a) => (b, sep, a)
  | None => (s, [], [])
  end.

(** [s.split(sep, maxsplit)] for a non-empty [sep]: at most [n] cuts. *)
Fixpoint split_max (n : nat) (sep s : str) : list str :=
  match n with
  | O => [s]
  | S n' =>
      match find_split sep s with
      | None => [s]
      | Some (b, a) => b :: split_max n' sep a
      end
  end.

(** [s.split(sep)] for a non-empty [sep]: a string of length [n] holds at
    most [n] occurrences. *)
Definition split (sep s : str) : list str := split_max (length s) sep s.

(** [s.rsplit(sep, maxsplit)]: the cuts are taken from the right. *)
Definition rsplit_max (n : nat) (sep s : str) : list str :=
  rev (map (@rev char) (split_max n (rev sep) (rev s))).

Fixpoint lstrip (s : str) : str :=
  match s with
  | c :: s' => if isspace c then lstrip s' else s
  | [] => []
  end.

Definition rstrip (s : str) : str := rev (lstrip (rev s)).
Definition strip (s : str) : str := rstrip (lstrip s).

(** [sep.join(l)] *)
Fixpoint join (sep : str) (l : list str) : str :=
  match l with
  | [] => []
  | [x] => x
  | x :: l' => x ++ sep ++ join sep l'
  end.

(** The argument-less [s.split()]: the maximal runs of non-whitespace
    characters.  [w] is the word being read, in reverse. *)
Fixpoint words_acc (w : str) (s : str) : list str :=
  match s with
  | [] => match w with [] => [] | _ => [rev w] end
  | c :: s' =>
      if isspace c
      then match w with [] => words_acc [] s' | _ => rev w :: words_acc [] s' end
      else words_acc (c :: w) s'
  end.

Definition split_ws (s : str) : list str := words_acc [] s.

(** [s.replace(old, new)] and [s.replace(old, new, count)]; [fuel] bounds
    the number of replacements.  An empty [old] matches before every
    character and at the end. *)
Fixpoint replace_empty (fuel : nat) (new s : str) : str :=
  match fuel with
  | O => s
  | S f =>
      match s with
      | [] => new
      | c :: s' => new ++ c :: replace_empty f new s'
      end
  end.

Fixpoint replace_fuel (fuel : nat) (old new s : str) : str :=
  match fuel with
  | O => s
  | S f =>
      match find_split old s with
      | None => s
      | Some (b, a) => b ++ new ++ replace_fuel f old new a
      end
  end.

Definition replace_count (count : nat) (old new s : str) : str :=
  match old with
  | [] => replace_empty count new s
  | _ => replace_fuel count old new s
  end.

Definition replace (old new s : str) : str :=
  replace_count (S (length s)) old new s.

End PyStr.

Import PyStr.


(* ================================================================== *)
(** ** Python values and exceptions *)
(* ================================================================== *)

Module PyVal.

(** The exception classes the formatter can meet. *)
Inductive exn :=
| YAMLError
| TypeError
| AttributeError
| KeyError
| IndexError
| ValueError
| PlainException (msg : str).

Inductive result (A : Type) :=
| Ok (a : A)
| Raise (e : exn).

Arguments Ok {A} a.
Arguments Raise {A} e.

Definition bind {A B} (m : result A) (f : A -> result B) : result B :=
  match m with
  | Ok a => f a
  | Raise e => Raise e
  end.

Declare Scope py_scope.
Delimit Scope py_scope with py_scope.
Notation "x <- m ;; k" := (bind m (fun x => k))
  (at level 61, m at next level, right associativity) : py_scope.
Open Scope py_scope.

Fixpoint mapM {A B} (f : A -> result B) (l : list A) : result (list B) :=
  match l with
  | [] => Ok []
  | a :: l' => b <- f a ;; bs <- mapM f l' ;; Ok (b :: bs)
  end.

Definition returns {A} (m : result A) : bool :=
  match m with Ok _ => true | Raise _ => false end.

(** Hashable scalars, the keys of a [dict].  [True == 1] and [False == 0]
    in Python, also as dictionary keys. *)
Inductive pykey :=
| KNone
| KBool (b : bool)
| KInt (z : Z)
| KStr (s : str).

Definition key_num (k : pykey) : option Z :=
  match k with
  | KBool b => Some (if b then 1%Z else 0%Z)
  | KInt z => Some z
  | _ => None
  end.

Definition key_eqb (a b : pykey) : bool :=
  match a, b with
  | KNone, KNone => true
  | KStr s, KStr t => str_eqb s t
  | _, _ =>
      match key_num a, key_num b with
      | Some x, Some y => Z.eqb x y
      | _, _ => false
      end
  end.

(** The objects the safe loader builds for the JSON-like core of YAML.  A
    [dict] keeps its insertion order; it is a list of entries with pairwise
    distinct keys.  Floats, timestamps, binary and set nodes are left out. *)
#[local] Set Warnings "-register-all".
Inductive pyval :=
| PNone
| PBool (b : bool)
| PInt (z : Z)
| PStr (s : str)
| PList (l : list pyval)
| PDict (d : list (pykey * pyval)).

Definition dict := list (pykey * pyval).

Definition val_of_key (k : pykey) : pyval :=
  match k with
  | KNone => PNone
  | KBool b => PBool b
  | KInt z => PInt z
  | KStr s => PStr s
  end.

(** [hash(v)]: lists and dicts are unhashable. *)
Definition key_of_val (v : pyval) : result pykey :=
  match v with
  | PNone => Ok KNone
  | PBool b => Ok (KBool b)
  | PInt z => Ok (KInt z)
  | PStr s => Ok (KStr s)
  | PList _ | PDict _ => Raise TypeError
  end.

(** [v == k] for a value and a hashable scalar. *)
Definition val_eq_key (v : pyval) (k : pykey) : bool :=
  match key_of_val v with
  | Ok k' => key_eqb k' k
  | Raise _ => false
  end.

(** Truth value of an object, as tested by [if v:] and [not v]. *)
Definition truthy (v : pyval) : bool :=
  match v with
  | PNone => false
  | PBool b => b
  | PInt z => negb (Z.eqb z 0)
  | PStr s => match s with [] => false | _ => true end
  | PList l => match l with [] => false | _ => true end
  | PDict d => match d with [] => false | _ => true end
  end.

(** *** Dictionaries *)

Fixpoint dict_get (d : dict) (k : pykey) : option pyval :=
  match d with
  | [] => None
  | (k', v) :: d' => if key_eqb k' k then Some v else dict_get d' k
  end.

Definition dict_mem (d : dict) (k : pykey) : bool :=
  match dict_get d k with Some _ => true | None => false end.

(** [d[k] = v]: an existing key keeps its place, a new key goes last. *)
Fixpoint dict_set (d : dict) (k : pykey) (v : pyval) : dict :=
  match d with
  | [] => [(k, v)]
  | (k', v') :: d' =>
      if key_eqb k' k then (k', v) :: d' else (k', v') :: dict_set d' k v
  end.

(** [del d[k]], and the dictionary left by [d.pop(k)]. *)
Fixpoint dict_del (d : dict) (k : pykey) : dict :=
  match d with
  | [] => []
  | (k', v') :: d' => if key_eqb k' k then d' else (k', v') :: dict_del d' k
  end.

(** [d.pop(k)] *)
Definition dict_pop (d : dict) (k : pykey) : result (pyval * dict) :=
  match dict_get d k with
  | Some v => Ok (v, dict_del d k)
  | None => Raise KeyError
  end.

Definition dict_keys (d : dict) : list pykey := map fst d.
Definition dict_values (d : dict) : list pyval := map snd d.

(** [a | b] on two dicts (and the state of [a] after [a |= b]). *)
Definition dict_or (a b : dict) : dict :=
  fold_left (fun acc kv => dict_set acc (fst kv) (snd kv)) b a.

(** *** Generic object protocol *)

(** [v.get(name, default)] *)
Definition py_get (v : pyval) (name : str) (default : pyval) : result pyval :=
  match v with
  | PDict d =>
      match dict_get d (KStr name) with
      | Some x => Ok x
      | None => Ok default
      end
  | _ => Raise AttributeError
  end.

(** [v.values()] and [v.keys()] *)
Definition py_values (v : pyval) : result (list pyval) :=
  match v with
  | PDict d => Ok (dict_values d)
  | _ => Raise AttributeError
  end.

Definition py_keys (v : pyval) : result (list pykey) :=
  match v with
  | PDict d => Ok (dict_keys d)
  | _ => Raise AttributeError
  end.

(** [iter(v)]: the items a [for] loop or a comprehension goes through. *)
Definition py_iter (v : pyval) : result (list pyval) :=
  match v with
  | PList l => Ok l
  | PStr s => Ok (map (fun c => PStr [c]) s)
  | PDict d => Ok (map val_of_key (dict_keys d))
  | PNone | PBool _ | PInt _ => Raise TypeError
  end.

(** [len(v)] *)
Definition py_len (v : pyval) : result nat :=
  match v with
  | PList l => Ok (length l)
  | PStr s => Ok (length s)
  | PDict d => Ok (length d)
  | PNone | PBool _ | PInt _ => Raise TypeError
  end.

(** The items of [v[k:]].  Slicing a dict raises ([TypeError] up to Python
    3.11, [KeyError] from 3.12). *)
Definition py_slice_from (v : pyval) (k : nat) : result (list pyval) :=
  match v with
  | PList l => Ok (skipn k l)
  | PStr s => Ok (map (fun c => PStr [c]) (skipn k s))
  | PDict _ | PNone | PBool _ | PInt _ => Raise TypeError
  end.

(** [v["name"]] for a string subscript. *)
Definition py_getitem_str (v : pyval) (name : str) : result pyval :=
  match v with
  | PDict d =>
      match dict_get d (KStr name) with
      | Some x => Ok x
      | None => Raise KeyError
      end
  | _ => Raise TypeError
  end.

(** One element of the sequence given to [dict.update]: it must unpack
    into a key and a value. *)
Definition update_pair (e : pyval) : result (pykey * pyval) :=
  match py_iter e with
  | Raise _ => Raise TypeError
  | Ok [k; v] => k' <- key_of_val k ;; Ok (k', v)
  | Ok _ => Raise ValueError
  end.

(** [d |= other]: a mapping is merged entry by entry, any other iterable
    must yield key/value pairs. *)
Definition dict_ior (d : dict) (other : pyval) : result dict :=
  match other with
  | PDict o => Ok (dict_or d o)
  | _ =>
      items <- py_iter other ;;
      pairs <- mapM update_pair items ;;
      Ok (dict_or d pairs)
  end.

End PyVal.

Import PyVal.

(* ================================================================== *)
(** ** formatter.py *)
(* ================================================================== *)

(** PyYAML is a library outside the repository: its safe loader and the
    dumper configured by [AnsibleDumper] are taken as an interface.
    [yaml_load s] is [yaml.load(s, Loader=yaml.SafeLoader)] (also
    [yaml.safe_load(s)]); [yaml_dump d] is
    [yaml.dump(d, Dumper=AnsibleDumper, allow_unicode=True, sort_keys=False,
    width=10000)]. *)
Class YamlLib := {
  yaml_load : str -> result pyval;
  yaml_dump : pyval -> str
}.

Module Formatter.

Section WithYaml.

Context {Y : YamlLib}.

(** [yaml.load(v, ...)] on an object of the request: anything but text has
    no [read] method. *)
Definition yaml_load_obj (v : pyval) : result pyval :=
  match v with
  | PStr s => yaml_load s
  | _ => Raise AttributeError
  end.

Fixpoint load_and_merge_vars_in_context_from
    (merged_vars : dict) (vars_in_context : list pyval) : result dict :=
  match vars_in_context with
  | [] => Ok merged_vars
  | v :: rest =>
      loaded <- yaml_load_obj v ;;
      merged_vars' <- dict_ior merged_vars loaded ;;
      load_and_merge_vars_in_context_from merged_vars' rest
  end.

Definition load_and_merge_vars_in_context (vars_in_context : list pyval)
  : result dict :=
  load_and_merge_vars_in_context_from [] vars_in_context.

(** [data.insert(0, vars_task)] when [merged_vars] is not empty; the
    function updates [data] in place, the model returns the new [data]. *)
Definition insert_set_fact_task (data : pyval) (merged_vars : dict)
  : result pyval :=
  if truthy (PDict merged_vars) then
    let vars_task :=
      PDict [(KStr (py "name"), PStr (py "Set variables from context"));
             (KStr (py "ansible.builtin.set_fact"), PDict merged_vars)] in
    match data with
    | PList l => Ok (PList (vars_task :: l))
    | _ => Raise AttributeError
    end
  else Ok data.

(** [[file for file in files if file != vars_file]] *)
Definition drop_vars_file (vars_file : pykey) (files : pyval) : result pyval :=
  items <- py_iter files ;;
  Ok (PList (filter (fun file => negb (val_eq_key file vars_file)) items)).

Fixpoint drop_vars_files (keys : list pykey) (files : pyval) : result pyval :=
  match keys with
  | [] => Ok files
  | vars_file :: rest =>
      files' <- drop_vars_file vars_file files ;;
      drop_vars_files rest files'
  end.

(** The body of the loop of [expand_vars_playbook], for one play [d].  The
    loop updates each play in place; the model returns the updated play and
    takes the plays of a document as separate values (a play reached twice
    through a YAML alias would be updated twice). *)
Definition expand_play (merged_vars : dict) (var_infile_keys : list pykey)
    (play : pyval) : result pyval :=
  keys <- py_keys play ;;
  match play, rev keys with
  | PDict d, last_key :: _ =>
      popped <- dict_pop d last_key ;;
      let '(last_key_value, d1) := popped in
      new_vars <-
        match dict_get d1 (KStr (py "vars")) with
        | None => Ok (PDict merged_vars)
        | Some (PDict old) => Ok (PDict (dict_or old merged_vars))
        | Some _ => Raise TypeError
        end ;;
      let d2 := dict_set d1 (KStr (py "vars")) new_vars in
      let d3 := dict_set d2 last_key last_key_value in
      match dict_get d3 (KStr (py "vars_files")) with
      | None => Ok (PDict d3)
      | Some files =>
          files' <- drop_vars_files var_infile_keys files ;;
          let d4 := dict_set d3 (KStr (py "vars_files")) files' in
          n <- py_len files' ;;
          if Nat.eqb n 0
          then Ok (PDict (dict_del d4 (KStr (py "vars_files"))))
          else Ok (PDict d4)
      end
  | _, _ => Raise IndexError
  end.

Definition expand_vars_playbook (data additional_context : pyval)
  : result pyval :=
  playbook_context <- py_get additional_context (py "playbookContext") (PDict []) ;;
  var_infiles_map <- py_get playbook_context (py "varInfiles") (PDict []) ;;
  var_infiles <- py_values var_infiles_map ;;
  include_vars_map <- py_get playbook_context (py "includeVars") (PDict []) ;;
  include_vars <- py_values include_vars_map ;;
  merged_vars <- load_and_merge_vars_in_context (var_infiles ++ include_vars) ;;
  if Nat.ltb 0 (length merged_vars) then
    plays <- py_iter data ;;
    var_infile_keys <- py_keys var_infiles_map ;;
    plays' <- mapM (expand_play merged_vars var_infile_keys) plays ;;
    match data with
    | PList _ => Ok (PList plays')
    | _ => Ok data
    end
  else Ok data.

Definition expand_vars_tasks_in_role (data additional_context : pyval)
  : result pyval :=
  role_context <- py_get additional_context (py "roleContext") (PDict []) ;;
  role_vars_map <- py_get role_context (py "roleVars") (PDict []) ;;
  vars_map <- py_get role_vars_map (py "vars") (PDict []) ;;
  role_vars <- py_values vars_map ;;
  defaults_map <- py_get role_vars_map (py "defaults") (PDict []) ;;
  role_vars_defaults <- py_values defaults_map ;;
  include_vars_map <- py_get role_context (py "includeVars") (PDict []) ;;
  include_vars <- py_values include_vars_map ;;
  merged_vars <-
    load_and_merge_vars_in_context (role_vars_defaults ++ role_vars ++ include_vars) ;;
  if Nat.ltb 0 (length merged_vars)
  then insert_set_fact_task data merged_vars
  else Ok data.

Definition expand_vars_tasks (data additional_context : pyval)
  : result pyval :=
  standalone_task_context <-
    py_get additional_context (py "standaloneTaskContext") (PDict []) ;;
  include_vars_map <- py_get standalone_task_context (py "includeVars") (PDict []) ;;
  include_vars <- py_values include_vars_map ;;
  merged_vars <- load_and_merge_vars_in_context include_vars ;;
  if Nat.ltb 0 (length merged_vars)
  then insert_set_fact_task data merged_vars
  else Ok data.

(** The dispatch table of [expand_vars_files]; an unknown file type leaves
    [data] as it is. *)
Definition expand_vars_files (data : pyval) (ansible_file_type : str)
    (additional_context : pyval) : result pyval :=
  if str_eqb ansible_file_type (py "playbook")
  then expand_vars_playbook data additional_context
  else if str_eqb ansible_file_type (py "tasks_in_role")
  then expand_vars_tasks_in_role data additional_context
  else if str_eqb ansible_file_type (py "tasks")
  then expand_vars_tasks data additional_context
  else Ok data.

(** [normalize_yaml]: [None] for an empty document, the dumped text
    otherwise; [additional_context] is [PNone] when absent. *)
Definition normalize_yaml (yaml_str ansible_file_type : str)
    (additional_context : pyval) : result (option str) :=
  data <- yaml_load yaml_str ;;
  match data with
  | PNone => Ok None
  | _ =>
      data' <- (if truthy additional_context
                then expand_vars_files data ansible_file_type additional_context
                else Ok data) ;;
      Ok (Some (yaml_dump data'))
  end.

(** [if prompt:] for a string. *)
Definition nonempty (s : str) : bool :=
  match s with [] => false | _ => true end.

Definition is_multi_task_prompt (prompt : str) : bool :=
  if nonempty prompt then startswith (py "#") (lstrip prompt) else false.

Definition handle_spaces (prompt : str) : str :=
  let '(before, sep, after) := partition (py "- name: ") prompt in
  let text := join (py " ") (split_ws after) in
  before ++ sep ++ text.

Definition preprocess (context prompt ansible_file_type : str)
    (additional_context : pyval) : result (str * str) :=
  let multi_task := is_multi_task_prompt prompt in
  let original_multi_task_prompt := prompt in
  formatted <- normalize_yaml (context ++ [nl] ++ prompt)
                 ansible_file_type additional_context ;;
  match formatted with
  | Some formatted =>
      if multi_task then Ok (formatted, original_multi_task_prompt)
      else
        let segs := rsplit_max 2 [nl] formatted in
        let '(context', prompt') :=
          match segs with
          | [seg0; seg1; _] => (seg0 ++ [nl], seg1)
          | [seg0; _] => ([], seg0)
          | _ => (context, prompt)
          end in
        Ok (context', handle_spaces prompt')
  | None => Ok (context, prompt)
  end.

(** The loop of [unify_prompt_ending]: [i] runs over
    [range(len(prompt) - 1, 0, -1)], that is from the last index down to 1. *)
Fixpoint unify_prompt_ending_from (prompt : str) (i : nat) : str :=
  match i with
  | O => [nl]
  | S i' =>
      let c := nth i prompt 0%N in
      if negb (char_eqb c colon || isspace c)
      then firstn (i + 1) prompt ++ [nl]
      else unify_prompt_ending_from prompt i'
  end.

Definition unify_prompt_ending (prompt : str) : str :=
  unify_prompt_ending_from prompt (length prompt - 1).

Definition get_task_count_from_prompt (prompt : str) : nat :=
  if nonempty prompt
  then length (split (py "&") (strip prompt))
  else 0.

(** [prompt.split("#", 1)[1]] is reached for a multi-task prompt only, which
    holds a [#]; [split("name:")[-1]] is the last piece. *)
Definition get_task_names_from_prompt (prompt : str) : list str :=
  if is_multi_task_prompt prompt then
    let prompt' := strip (nth 1 (split_max 1 (py "#") prompt) []) in
    let split_list := split (py "&") prompt' in
    let trimmed_list := map strip split_list in
    map (fun trimmed_prompt =>
           if startswith (py "- name:") trimmed_prompt
           then strip (replace_count 1 (py "- name:") [] trimmed_prompt)
           else trimmed_prompt)
        trimmed_list
  else [strip (last (split (py "name:") prompt) [])].

Definition get_task_names_from_tasks (tasks : str) : result (list pyval) :=
  task_list <- yaml_load tasks ;;
  match task_list with
  | PList l =>
      match l with
      | [] => Raise IndexError
      | PDict d0 :: _ =>
          match dict_get d0 (KStr (py "name")) with
          | Some (PStr _) =>
              mapM (fun task => py_getitem_str task (py "name")) l
          | _ => Raise (PlainException (py "unexpected tasks yaml"))
          end
      | _ :: _ => Raise (PlainException (py "unexpected tasks yaml"))
      end
  | _ => Raise (PlainException (py "unexpected tasks yaml"))
  end.

Definition get_task_list_from_yaml_data_obj (data : pyval) : pyval :=
  match data with
  | PList (PDict d0 :: _) =>
      let tasks := match dict_get d0 (KStr (py "tasks")) with
                   | Some t => t
                   | None => PList []
                   end in
      let task_list := match tasks with
                       | PNone => PList []
                       | _ => tasks
                       end in
      if negb (truthy task_list) && negb (dict_mem d0 (KStr (py "tasks")))
      then data
      else task_list
  | _ => PList []
  end.

(** The loop of [restore_original_task_names] over the suggested tasks;
    [i] is the [enumerate] index.  Only [IndexError] is caught, and ends the
    loop. *)
Fixpoint restore_task_names_from (prompt_task_names : list str) (i : nat)
    (tasks : list pyval) (output_yaml : str) : result str :=
  match tasks with
  | [] => Ok output_yaml
  | task :: rest =>
      task_name_obj <- py_get task (py "name") (PStr []) ;;
      match task_name_obj with
      | PStr task_name =>
          let task_line := py "- name:  " ++ task_name in
          match nth_error prompt_task_names i with
          | None => Ok output_yaml
          | Some prompt_task_name =>
              let restored_task_line :=
                replace task_name prompt_task_name task_line in
              restore_task_names_from prompt_task_names (S i) rest
                (replace task_line restored_task_line output_yaml)
          end
      | _ => Raise TypeError
      end
  end.

Definition restore_original_task_names (output_yaml prompt payload_context : str)
  : result str :=
  if nonempty output_yaml && is_multi_task_prompt prompt then
    let full_yaml := payload_context ++ output_yaml in
    match yaml_load payload_context with
    | Raise _ => Ok output_yaml
    | Ok payload_context_data =>
        match yaml_load full_yaml with
        | Raise _ => Ok output_yaml
        | Ok full_data =>
            let prompt_task_names := get_task_names_from_prompt prompt in
            let full_task_list := get_task_list_from_yaml_data_obj full_data in
            let payload_context_task_list :=
              get_task_list_from_yaml_data_obj payload_context_data in
            context_task_list_length <- py_len payload_context_task_list ;;
            tasks <- py_slice_from full_task_list context_task_list_length ;;
            restore_task_names_from prompt_task_names 0 tasks output_yaml
        end
    end
  else Ok output_yaml.

End WithYaml.

End Formatter.


(* ================================================================== *)
(** ** The fragment of Python's [re] used by the formatter *)
(* ================================================================== *)

Module PyRe.

(** Patterns: a literal character, a character set, greedy [+],
    concatenation, and a capturing group with its number. *)
Inductive regex :=
| Chr (c : char)
| Cls (p : char -> bool)
| Plus (r : regex)
| Cat (r1 r2 : regex)
| Group (n : nat) (r : regex).

Definition captures := list (nat * str).

Record match_obj := {
  m_text : str;          (* group(0) *)
  m_groups : captures
}.

Fixpoint lookup_group (n : nat) (c : captures) : str :=
  match c with
  | [] => []
  | (n', t) :: c' => if Nat.eqb n' n then t else lookup_group n c'
  end.

(** [item.group(n)] for a group that took part in the match. *)
Definition group (item : match_obj) (n : nat) : str :=
  lookup_group n (m_groups item).

(** What was read between the input [s] and its suffix [rest]. *)
Definition consumed (s rest : str) : str :=
  firstn (length s - length rest) s.

(** Backtracking matcher anchored at the head of [s]: [k] is what remains
    to be matched; [+] first tries one more round, then gives back.
    [fuel] bounds the rounds of [+]. *)
Fixpoint match_here {R} (fuel : nat) :
    regex -> str -> captures -> (str -> captures -> option R) -> option R :=
  fix go (r : regex) (s : str) (c : captures)
         (k : str -> captures -> option R) : option R :=
    match r with
    | Chr a =>
        match s with
        | x :: s' => if char_eqb x a then k s' c else None
        | [] => None
        end
    | Cls p =>
        match s with
        | x :: s' => if p x then k s' c else None
        | [] => None
        end
    | Cat r1 r2 => go r1 s c (fun s' c' => go r2 s' c' k)
    | Group n r1 =>
        go r1 s c (fun s' c' => k s' ((n, consumed s s') :: c'))
    | Plus r1 =>
        go r1 s c (fun s' c' =>
          match fuel with
          | O => k s' c'
          | S f =>
              if Nat.ltb (length s') (length s) then
                match match_here f (Plus r1) s' c' k with
                | Some x => Some x
                | None => k s' c'
                end
              else k s' c'
          end)
    end.

(** [pattern.match(s)]: the match object and the unread rest. *)
Definition match_at (r : regex) (s : str) : option (match_obj * str) :=
  match_here (length s) r s []
    (fun rest c => Some ({| m_text := consumed s rest; m_groups := c |}, rest)).

(** [pattern.finditer(s)]: the successive non-overlapping matches, from
    left to right; after an empty match the scan moves on by one
    character. *)
Fixpoint finditer_fuel (fuel : nat) (r : regex) (s : str) : list match_obj :=
  match fuel with
  | O => []
  | S f =>
      match match_at r s with
      | Some (item, rest) =>
          if Nat.ltb (length rest) (length s)
          then item :: finditer_fuel f r rest
          else item :: match s with
                       | [] => []
                       | _ :: s' => finditer_fuel f r s'
                       end
      | None =>
          match s with
          | [] => []
          | _ :: s' => finditer_fuel f r s'
          end
      end
  end.

Definition finditer (r : regex) (s : str) : list match_obj :=
  finditer_fuel (S (length s)) r s.

End PyRe.

Import PyRe.

(* ================================================================== *)
(** ** formatter.py: module and FQCN extraction *)
(* ================================================================== *)

Module Extractor.

(** A class as [_get_class_keywords] reads it: the names in its [__dict__]
    and whether the attribute is callable. *)
Definition pyclass := list (str * bool).

Definition in_range (lo hi c : char) : bool := ((lo <=? c) && (c <=? hi))%N.

(** The set [[a-z0-9_]] *)
Definition ident_char (c : char) : bool :=
  in_range 97%N 122%N c || in_range 48%N 57%N c || char_eqb c 95%N.

(** The set [[a-z0-9_.]] *)
Definition ident_dot_char (c : char) : bool :=
  in_range 97%N 122%N c || in_range 48%N 57%N c || char_eqb c 95%N || char_eqb c 46%N.

Definition dot : char := 46%N.

(** [(([a-z0-9_]+)\.([a-z0-9_]+)\.([a-z0-9_]+)):] *)
Definition ansible_fqcn_declaration_pattern : regex :=
  Cat (Group 1
         (Cat (Group 2 (Plus (Cls ident_char)))
         (Cat (Chr dot)
         (Cat (Group 3 (Plus (Cls ident_char)))
         (Cat (Chr dot)
              (Group 4 (Plus (Cls ident_char))))))))
      (Chr colon).

(** [([a-z0-9_.]+):] *)
Definition ansible_module_declaration_pattern : regex :=
  Cat (Group 1 (Plus (Cls ident_dot_char))) (Chr colon).

Definition set_mem (x : str) (l : list str) : bool :=
  existsb (str_eqb x) l.

Definition _get_class_keywords (c : pyclass) : list str :=
  map (fun a => replace (py "_val") [] (fst a))
      (filter (fun a => negb (snd a) && negb (startswith (py "_") (fst a))) c).

Section WithTask.

(** [Task.__mro__] of [ansible.playbook.task], the class first. *)
Variable Task_mro : list pyclass.

(** The module-level cache [ansible_task_keywords]: [None] until the first
    call.  The function returns the set and the new state of the cache. *)
Definition get_ansible_task_keywords (cache : option (list str))
  : list str * option (list str) :=
  match cache with
  | Some (k :: ks) => (k :: ks, cache)
  | _ =>
      let computed :=
        _get_class_keywords (hd [] Task_mro)
        ++ flat_map _get_class_keywords Task_mro in
      (computed, Some computed)
  end.

(** The loop of [_parse_module_from_prediction] over the iterator:
    [StopIteration] ends it with [None].  The predicate may read and fill
    the cache. *)
Fixpoint parse_items (items : list match_obj)
    (predicate : str -> option (list str) -> bool * option (list str))
    (cache : option (list str)) : option str * option (list str) :=
  match items with
  | [] => (None, cache)
  | item :: rest =>
      let item_value := group item 1 in
      let '(skip, cache') := predicate item_value cache in
      if skip then parse_items rest predicate cache'
      else (Some item_value, cache')
  end.

Definition _parse_module_from_prediction (re : regex) (prediction : str)
    (predicate : str -> option (list str) -> bool * option (list str))
    (cache : option (list str)) : option str * option (list str) :=
  parse_items (finditer re prediction) predicate cache.

Definition _get_fqcn_from_prediction (prediction : str)
    (cache : option (list str)) : option str * option (list str) :=
  _parse_module_from_prediction ansible_fqcn_declaration_pattern prediction
    (fun _ c => (false, c)) cache.

Definition _get_module_from_prediction (prediction : str)
    (cache : option (list str)) : option str * option (list str) :=
  _parse_module_from_prediction ansible_module_declaration_pattern prediction
    (fun value c =>
       let '(keywords, c') := get_ansible_task_keywords c in
       (set_mem value keywords, c'))
    cache.

Definition get_fqcn_or_module_from_prediction (prediction : option str)
    (cache : option (list str)) : option str * option (list str) :=
  match prediction with
  | None => (None, cache)
  | Some p =>
      match _get_fqcn_from_prediction p cache with
      | (Some fqcn, cache') => (Some fqcn, cache')
      | (None, cache') => _get_module_from_prediction p cache'
      end
  end.

End WithTask.

End Extractor.


(* ================================================================== *)
(** ** formatter.py: prompt extraction and indentation *)
(* ================================================================== *)

Module FormatterText.

Import Formatter.

(** The characters [str.splitlines] ends a line at: [\n], [\r], [\v],
    [\f], [\x1c], [\x1d], [\x1e], [\x85], [U+2028] and [U+2029]. *)
Definition is_linebreak (c : char) : bool :=
  ((c =? 10) || (c =? 13) || (c =? 11) || (c =? 12) || (c =? 28) || (c =? 29)
   || (c =? 30) || (c =? 133) || (c =? 8232) || (c =? 8233))%N.

(** [s.splitlines()]: [\r\n] ends one line, and a final line break opens
    no further line.  [line] is the line being read, in reverse. *)
Fixpoint splitlines_acc (line : str) (s : str) : list str :=
  match s with
  | [] => match line with [] => [] | _ => [rev line] end
  | c :: s' =>
      if is_linebreak c then
        rev line ::
        match s' with
        | d :: s'' =>
            if (c =? 13)%N && (d =? 10)%N
            then splitlines_acc [] s''
            else splitlines_acc [] s'
        | [] => splitlines_acc [] s'
        end
      else splitlines_acc (c :: line) s'
  end.

Definition splitlines (s : str) : list str := splitlines_acc [] s.

(** [len(line) - len(line.lstrip())] *)
Definition indent_of (line : str) : nat := length line - length (lstrip line).

(** [original_indent] is an integer of the caller; a line is padded with
    [" " * padding_level] or cut with [line[extra_indent:]]. *)
Definition restore_indentation (yaml : str) (original_indent : Z) : result str :=
  if nonempty yaml then
    let lines := splitlines yaml in
    match lines with
    | [] => Raise IndexError
    | first_line :: _ =>
        let current_indent := Z.of_nat (indent_of first_line) in
        if (current_indent <? original_indent)%Z then
          let padding_level := (original_indent - current_indent)%Z in
          let padded_lines :=
            map (fun line => repeat space (Z.to_nat padding_level) ++ line) lines in
          Ok (join [nl] padded_lines)
        else if (original_indent <? current_indent)%Z then
          let extra_indent := (current_indent - original_indent)%Z in
          let corrected_lines :=
            map (fun line => skipn (Z.to_nat extra_indent) line) lines in
          Ok (join [nl] corrected_lines)
        else Ok yaml
    end
  else Ok yaml.

(** Returns the pair [(prompt, context)]; [rsplit] yields at least one
    segment, so [segs[0]] exists. *)
Definition extract_prompt_and_context (input : str) : str * str :=
  if nonempty input then
    let _input := rstrip input in
    let segs := rsplit_max 1 [nl] _input in
    match segs with
    | [seg0; seg1] => (seg1 ++ [nl], seg0 ++ [nl])
    | _ => (nth 0 segs [] ++ [nl], [])
    end
  else ([], []).

Section WithLower.

(** [str.lower], the lowercase mapping of Unicode, is taken as given. *)
Variable lower : str -> str.

(** The loop of [extract_task] over [splits[1:]]. *)
Fixpoint extract_task_from (indent task_name : str) (splits : list str)
  : option str :=
  match splits with
  | [] => None
  | piece :: rest =>
      if startswith (lower task_name) (lower piece)
      then Some (indent ++ py "- name: " ++ rstrip piece)
      else extract_task_from indent task_name rest
  end.

Definition extract_task (tasks task_name : str) : option str :=
  let splits := split (py "- name: ") tasks in
  let indent := nth 0 splits [] in
  extract_task_from indent task_name (tl splits).

Definition strip_task_preamble_from_multi_task_prompt (prompt : str) : str :=
  if is_multi_task_prompt prompt then
    let prompt_split := split_max 1 (py "#") prompt in
    let aggregated :=
      join (py " & ") (map lower (get_task_names_from_prompt prompt)) in
    nth 0 prompt_split [] ++ py "# " ++ aggregated
  else prompt.

End WithLower.

End FormatterText.

(* ================================================================== *)
(** ** Reference definitions used by the statements *)
(* ================================================================== *)

Module Reference.

(** A character [unify_prompt_ending] trims. *)
Definition trimmable (c : char) : bool := char_eqb c colon || isspace c.

Fixpoint drop_while (p : char -> bool) (s : str) : str :=
  match s with
  | c :: s' => if p c then drop_while p s' else s
  | [] => []
  end.

(** The prompt without its trailing [:] and whitespace characters. *)
Definition retained (prompt : str) : str :=
  rev (drop_while trimmable (rev prompt)).

(** [unifyPromptEnding] as the spec words it: the retained prefix and one
    newline. *)
Definition unify_prompt_ending_spec (prompt : str) : str :=
  retained prompt ++ [nl].

Fixpoint count_char (c : char) (s : str) : nat :=
  match s with
  | [] => 0
  | x :: s' => (if char_eqb x c then 1 else 0) + count_char c s'
  end.

(** [names] of the tasks a well-formed task list holds. *)
Definition has_name (task : pyval) : bool :=
  match task with
  | PDict d => dict_mem d (KStr (py "name"))
  | _ => false
  end.

Definition name_of (task : pyval) : pyval :=
  match task with
  | PDict d =>
      match dict_get d (KStr (py "name")) with
      | Some v => v
      | None => PNone
      end
  | _ => PNone
  end.

Definition first_has_string_name (l : list pyval) : bool :=
  match l with
  | PDict d0 :: _ =>
      match dict_get d0 (KStr (py "name")) with
      | Some (PStr _) => true
      | _ => false
      end
  | _ => false
  end.

(** A suggested task whose name can be restored: a mapping whose [name],
    when present, is text. *)
Definition task_ok (task : pyval) : bool :=
  match task with
  | PDict d =>
      match dict_get d (KStr (py "name")) with
      | Some (PStr _) | None => true
      | Some _ => false
      end
  | _ => false
  end.

Definition task_name (task : pyval) : str :=
  match name_of task with
  | PStr n => n
  | _ => []
  end.

(** One substitution of [restore_original_task_names]: the line of the
    generated name is replaced by the line with the prompted name. *)
Definition substitute (output_yaml generated prompted : str) : str :=
  let task_line := py "- name:  " ++ generated in
  replace task_line (replace generated prompted task_line) output_yaml.

(** The substitutions for the tasks that have a prompted name: [combine]
    stops at the shorter list. *)
Definition restore_names (prompt_task_names : list str) (tasks : list pyval)
    (output_yaml : str) : str :=
  fold_left (fun out tn => substitute out (task_name (fst tn)) (snd tn))
            (combine tasks prompt_task_names) output_yaml.

(** The suggested tasks the loop of [restore_original_task_names] reaches:
    those that get a prompted name and the one at which the prompted names
    run out. *)
Definition reached_tasks (prompt_task_names : list str) (tasks : list pyval)
  : list pyval :=
  firstn (S (length prompt_task_names)) tasks.

(** The key a dict holds last, [list(d.keys())[-1]]. *)
Fixpoint last_key (d : dict) : option pykey :=
  match d with
  | [] => None
  | (k, _) :: d' => match d' with [] => Some k | _ => last_key d' end
  end.

Definition play_last_key (play : pyval) : option pykey :=
  match play with
  | PDict d => last_key d
  | _ => None
  end.

(** The invariant of a dict: no two entries have equal keys. *)
Fixpoint dict_wf (d : dict) : bool :=
  match d with
  | [] => true
  | (k, _) :: d' => negb (dict_mem d' k) && dict_wf d'
  end.

Definition play_wf (play : pyval) : bool :=
  match play with
  | PDict d => dict_wf d
  | _ => true
  end.

Definition vars_files_key : pykey := KStr (py "vars_files").

Definition lacks_vars_files (play : pyval) : bool :=
  match play with
  | PDict d => negb (dict_mem d vars_files_key)
  | _ => true
  end.

(** The names under [varInfiles] of the playbook context: the files the
    expansion takes out of [vars_files]. *)
Definition var_infile_names (additional_context : pyval) : list pykey :=
  match
    (playbook_context <-
       py_get additional_context (py "playbookContext") (PDict []) ;;
     var_infiles_map <- py_get playbook_context (py "varInfiles") (PDict []) ;;
     py_keys var_infiles_map)
  with
  | Ok names => names
  | Raise _ => []
  end.

(** Every entry of the play's [vars_files] is one of [names]. *)
Definition vars_files_consumed (names : list pykey) (play : pyval) : bool :=
  match play with
  | PDict d =>
      match dict_get d vars_files_key with
      | Some files =>
          match py_iter files with
          | Ok items =>
              forallb (fun file => existsb (val_eq_key file) names) items
          | Raise _ => false
          end
      | None => false
      end
  | _ => false
  end.

(** The last key of a play after expansion: the one it had, or else that
    key was [vars_files], every entry of it was one of [names], and the key
    has been removed. *)
Definition last_key_kept (names : list pykey) (play play' : pyval) : Prop :=
  play_last_key play' = play_last_key play
  \/ (play_last_key play = Some vars_files_key
      /\ vars_files_consumed names play = true
      /\ lacks_vars_files play' = true).

(** The words a pattern denotes. *)
Inductive lang : regex -> str -> Prop :=
| lang_chr a : lang (Chr a) [a]
| lang_cls p x : p x = true -> lang (Cls p) [x]
| lang_cat r1 r2 w1 w2 :
    lang r1 w1 -> lang r2 w2 -> lang (Cat r1 r2) (w1 ++ w2)
| lang_group n r w : lang r w -> lang (Group n r) w
| lang_plus_one r w : lang r w -> lang (Plus r) w
| lang_plus_more r w1 w2 :
    lang r w1 -> lang (Plus r) w2 -> lang (Plus r) (w1 ++ w2).

(** A non-empty run of characters of the set [p]. *)
Definition is_run (p : char -> bool) (w : str) : Prop :=
  w <> [] /\ forallb p w = true.

(** [a.b.c] with three identifiers of [[a-z0-9_]]. *)
Definition fqcn_value (v : str) : Prop :=
  exists a b c,
    v = a ++ Extractor.dot :: b ++ Extractor.dot :: c
    /\ is_run Extractor.ident_char a
    /\ is_run Extractor.ident_char b
    /\ is_run Extractor.ident_char c.


(** [v], of the shape [P], stands in [prediction] after [pre] and is
    followed by a colon. *)
Definition declared (P : str -> Prop) (prediction pre v post : str) : Prop :=
  prediction = pre ++ v ++ colon :: post /\ P v.

(** The states of the keyword cache a process can be in: not filled yet,
    or filled by an earlier call. *)
Definition cache_ok (Task_mro : list Extractor.pyclass)
    (cache : option (list str)) : Prop :=
  cache = None
  \/ cache = Some (fst (Extractor.get_ansible_task_keywords Task_mro None)).

(** The task keywords: what a first call computes. *)
Definition task_keywords (Task_mro : list Extractor.pyclass) : list str :=
  fst (Extractor.get_ansible_task_keywords Task_mro None).

(** Keys up to Python equality: a bool is the integer 0 or 1. *)
Definition key_norm (k : pykey) : pykey :=
  match k with
  | KBool b => KInt (if b then 1 else 0)
  | _ => k
  end.

(** [sep] stands in [s] between [before] and [after], and nowhere
    earlier. *)
Definition first_occurrence (sep s before after : str) : Prop :=
  s = before ++ sep ++ after
  /\ forall b a, s = b ++ sep ++ a -> length before <= length b.

Definition non_space (c : char) : bool := negb (isspace c).

(** [ws_runs s ws]: [s] is made of the words [ws], in this order, each a
    maximal run of non-whitespace characters, with whitespace only around
    and between them. *)
Inductive ws_runs : str -> list str -> Prop :=
| ws_runs_end gap :
    forallb isspace gap = true -> ws_runs gap []
| ws_runs_word gap w rest ws :
    forallb isspace gap = true ->
    w <> [] -> forallb non_space w = true ->
    (rest = [] \/ exists c rest', rest = c :: rest' /\ isspace c = true) ->
    ws_runs rest ws ->
    ws_runs (gap ++ w ++ rest) (w :: ws).

Definition name_marker : str := py "- name: ".

(** What [handle_spaces] makes of the line [raw]: up to the first
    [- name: ] nothing changes, and the rest is its words separated by
    single spaces; a line without [- name: ] is kept. *)
Definition spaces_handled (raw prompt' : str) : Prop :=
  (forall before after,
     first_occurrence name_marker raw before after ->
     exists ws, ws_runs after ws
                /\ prompt' = before ++ name_marker ++ join [space] ws)
  /\ ((forall before after, raw <> before ++ name_marker ++ after) ->
      prompt' = raw).

(** The body of the FQCN pattern, inside group 1. *)
Definition fqcn_body : regex :=
  Cat (Group 2 (Plus (Cls Extractor.ident_char)))
  (Cat (Chr Extractor.dot)
  (Cat (Group 3 (Plus (Cls Extractor.ident_char)))
  (Cat (Chr Extractor.dot)
       (Group 4 (Plus (Cls Extractor.ident_char)))))).

Definition ampersand : char := 38%N.

(** The predicate [_get_module_from_prediction] filters with. *)
Definition keyword_predicate (Task_mro : list Extractor.pyclass)
    (value : str) (c : option (list str)) : bool * option (list str) :=
  let '(keywords, c') := Extractor.get_ansible_task_keywords Task_mro c in
  (Extractor.set_mem value keywords, c').

End Reference.

Import Reference.


(* ================================================================== *)
(** ** Sample documents *)
(* ================================================================== *)

(** A few documents with the objects the safe loader builds from them and
    the texts the dumper writes for these objects; any other text is
    rejected.  They serve to run the functions on concrete inputs. *)
Module Sample.

#[local] Open Scope string_scope.
#[local] Open Scope list_scope.

Fixpoint lines (l : list string) : str :=
  match l with
  | [] => []
  | x :: l' => py x ++ [nl] ++ lines l'
  end.

Definition key_same (a b : pykey) : bool :=
  match a, b with
  | KNone, KNone => true
  | KBool x, KBool y => Bool.eqb x y
  | KInt x, KInt y => Z.eqb x y
  | KStr x, KStr y => str_eqb x y
  | _, _ => false
  end.

Fixpoint pyval_same (a b : pyval) : bool :=
  match a, b with
  | PNone, PNone => true
  | PBool x, PBool y => Bool.eqb x y
  | PInt x, PInt y => Z.eqb x y
  | PStr x, PStr y => str_eqb x y
  | PList x, PList y =>
      (fix go (x y : list pyval) : bool :=
         match x, y with
         | [], [] => true
         | u :: x', v :: y' => pyval_same u v && go x' y'
         | _, _ => false
         end) x y
  | PDict x, PDict y =>
      (fix go (x y : list (pykey * pyval)) : bool :=
         match x, y with
         | [], [] => true
         | (k, u) :: x', (k', v) :: y' =>
             key_same k k' && pyval_same u v && go x' y'
         | _, _ => false
         end) x y
  | _, _ => false
  end.

Definition task (name : string) : pyval :=
  PDict [(KStr (py "name"), PStr (py name))].

Definition play_without_tasks : pyval :=
  PList [PDict [(KStr (py "hosts"), PStr (py "all"));
                (KStr (py "tasks"), PNone)]].

Definition play_with_task : pyval :=
  PList [PDict [(KStr (py "hosts"), PStr (py "all"));
                (KStr (py "tasks"), PList [task "install   nginx"])]].

Definition three_tasks : pyval :=
  PList [task "Install"; task "Start"; task "Extra"].

Definition numbered_task : pyval :=
  PList [task "x"; PDict [(KStr (py "name"), PInt 5)]].

Definition documents : list (str * pyval) :=
  [ ([], PNone);
    ([nl], PNone);
    (lines ["- hosts: all"; "  tasks:"] ++ [nl] ++ py "    # install nginx & start it",
     play_without_tasks);
    (lines ["- hosts: all"; "  tasks:"] ++ [nl] ++ py "    - name:  install   nginx",
     play_with_task);
    (lines ["- name:  Install"; "- name:  Start"; "- name:  Extra"], three_tasks);
    (lines ["- name:  x"; "- name:  5"], numbered_task);
    (py "a: 1", PDict [(KStr (py "a"), PInt 1)]) ].

Definition dumps : list (pyval * str) :=
  [ (play_without_tasks, lines ["- hosts: all"; "  tasks:"]);
    (play_with_task,
     lines ["- hosts: all"; "  tasks:"; "    - name: install   nginx"]) ].

Definition load (s : str) : result pyval :=
  match find (fun d => str_eqb (fst d) s) documents with
  | Some (_, v) => Ok v
  | None => Raise YAMLError
  end.

Definition dump (v : pyval) : str :=
  match find (fun d => pyval_same (fst d) v) dumps with
  | Some (_, t) => t
  | None => []
  end.

Definition yaml : YamlLib := {| yaml_load := load; yaml_dump := dump |}.

Definition vars_yml : str := py "vars.yml".

Definition play_with_vars_files : pyval :=
  PDict [(KStr (py "hosts"), PStr (py "all"));
         (KStr (py "vars_files"), PList [PStr vars_yml])].

Definition play_with_tasks : pyval :=
  PDict [(KStr (py "hosts"), PStr (py "all"));
         (KStr (py "vars_files"), PList [PStr vars_yml]);
         (KStr (py "tasks"), PList [task "install nginx"])].

(** [{"playbookContext": {"varInfiles": {"vars.yml": "a: 1"}}}] *)
Definition context_with_var_infile : pyval :=
  PDict [(KStr (py "playbookContext"),
          PDict [(KStr (py "varInfiles"),
                  PDict [(KStr vars_yml, PStr (py "a: 1"))])])].

(** A cut of [Task.__mro__]: some attributes of [Task] and of a base
    class, with their callable flag. *)
Definition task_mro : list Extractor.pyclass :=
  [ [(py "name", false); (py "action", false); (py "async_val", false);
     (py "_role", false); (py "load", true)];
    [(py "when", false); (py "tags", false); (py "get_name", true)] ].

End Sample.

(* ================================================================== *)
(** ** Further reference definitions and sample documents *)
(* ================================================================== *)

Module ReferenceText.

Import FormatterText.

(** A word of the argument-less [split]: non-empty, without whitespace. *)
Definition is_word (w : str) : Prop := w <> [] /\ forallb non_space w = true.

Definition hash : char := 35%N.

(** A text that does not start with whitespace. *)
Definition starts_non_space (t : str) : Prop :=
  match t with
  | [] => True
  | c :: _ => isspace c = false
  end.

(** A line: a text without line-break characters. *)
Definition no_linebreak (l : str) : Prop :=
  forallb (fun c => negb (is_linebreak c)) l = true.

(** The text with every run of whitespace characters replaced by one
    space, the runs at the two ends included. *)
Fixpoint collapse_runs (s : str) : str :=
  match s with
  | [] => []
  | c :: s' =>
      if isspace c then
        match s' with
        | c' :: _ => if isspace c' then collapse_runs s' else space :: collapse_runs s'
        | [] => [space]
        end
      else c :: collapse_runs s'
  end.

(** The task [insert_set_fact_task] builds. *)
Definition set_fact_task (merged_vars : dict) : pyval :=
  PDict [(KStr (py "name"), PStr (py "Set variables from context"));
         (KStr (py "ansible.builtin.set_fact"), PDict merged_vars)].

(** The values of the mapping reached from [v] along [path], a missing
    name standing for an empty mapping:
    [v.get(n1, {}).get(n2, {}) ... .values()]. *)
Fixpoint context_values (path : list str) (v : pyval) : result (list pyval) :=
  match path with
  | [] => py_values v
  | name :: rest =>
      sub <- py_get v name (PDict []) ;;
      context_values rest sub
  end.

(** [data'] is [data] when there are no merged variables, and otherwise
    the task list [data] with the [set_fact] task of the merged variables
    put in front. *)
Definition set_fact_prepended (merged : dict) (data data' : pyval) : Prop :=
  (merged = [] /\ data' = data)
  \/ (merged <> []
      /\ exists l, data = PList l /\ data' = PList (set_fact_task merged :: l)).

Definition vars_key : pykey := KStr (py "vars").

(** A value made of [[a-z0-9_.]] only. *)
Definition dotted_name (v : str) : Prop :=
  v <> [] /\ forallb Extractor.ident_dot_char v = true.

End ReferenceText.

Import ReferenceText.

(** More documents with the objects the safe loader builds from them. *)
Module SampleText.

#[local] Open Scope string_scope.
#[local] Open Scope list_scope.

Definition two_tasks : pyval := PList [Sample.task "Install"; Sample.task "Start"].

Definition documents : list (str * pyval) :=
  [ ([], PNone);
    (Sample.lines ["- name: Install"; "- name: Start"], two_tasks);
    (py "a: 1", PDict [(KStr (py "a"), PInt 1)]);
    (Sample.lines ["a: 2"; "b: 3"],
     PDict [(KStr (py "a"), PInt 2); (KStr (py "b"), PInt 3)]) ].

Definition load (s : str) : result pyval :=
  match find (fun d => str_eqb (fst d) s) documents with
  | Some (_, v) => Ok v
  | None => Raise YAMLError
  end.

Definition yaml : YamlLib := {| yaml_load := load; yaml_dump := Sample.dump |}.

(** A task name that starts with a no-break space (U+00A0) and ends with
    an ideographic space (U+3000): YAML takes neither for white space, so
    both belong to the plain scalar, while [str.split] takes both for
    whitespace. *)
Definition padded_name : str := [160%N] ++ py "a  b" ++ [12288%N].

Definition padded_task_line : str := py "- name: " ++ padded_name.

Definition padded_task : pyval :=
  PList [PDict [(KStr (py "name"), PStr padded_name)]].

(** The loader and the dumper on the one document [padded_task_line]. *)
Definition yaml_padded : YamlLib :=
  {| yaml_load := fun s =>
       if str_eqb s ([nl] ++ padded_task_line) then Ok padded_task
       else Raise YAMLError;
     yaml_dump := fun v =>
       if Sample.pyval_same v padded_task then padded_task_line ++ [nl]
       else [] |}.

(** [{"roleContext": {"roleVars": {"defaults": {"d.yml": "a: 1"},
                                      "vars": {"v.yml": "a: 2\nb: 3\n"}}}}] *)
Definition context_with_role_vars : pyval :=
  PDict [(KStr (py "roleContext"),
          PDict [(KStr (py "roleVars"),
                  PDict [(KStr (py "vars"),
                          PDict [(KStr (py "v.yml"),
                                  PStr (Sample.lines ["a: 2"; "b: 3"]))]);
                         (KStr (py "defaults"),
                          PDict [(KStr (py "d.yml"), PStr (py "a: 1"))])])])].

(** [str.lower] on ASCII text. *)
Definition ascii_lower (s : str) : str :=
  map (fun c => if ((65 <=? c) && (c <=? 90))%N then (c + 32)%N else c) s.

(** A play that ends with [vars_files] and names a file that is not in
    [varInfiles]. *)
Definition play_with_other_file : pyval :=
  PDict [(KStr (py "hosts"), PStr (py "all"));
         (KStr (py "vars_files"),
          PList [PStr Sample.vars_yml; PStr (py "other.yml")])].

(** [{"standaloneTaskContext": {"includeVars": {"vars.yml": "a: 1"}}}] *)
Definition context_with_include_vars : pyval :=
  PDict [(KStr (py "standaloneTaskContext"),
          PDict [(KStr (py "includeVars"),
                  PDict [(KStr (py "vars.yml"), PStr (py "a: 1"))])])].

End SampleText.

(* ================================================================== *)
(** * Properties *)
(* ================================================================== *)

(** ** Strings *)

Lemma char_eqb_eq (a b : char) : char_eqb a b = true <-> a = b.
Proof. apply N.eqb_eq. Qed.

Lemma str_eqb_eq (a b : str) : str_eqb a b = true <-> a = b.
Proof.
  revert b; induction a as [|x a IH]; intros [|y b]; simpl; split;
    try congruence; try easy.
  - intros H. apply andb_true_iff in H as [H1 H2].
    apply char_eqb_eq in H1. apply IH in H2. congruence.
  - intros H. injection H as -> ->. apply andb_true_iff. split.
    + now apply char_eqb_eq.
    + now apply IH.
Qed.

Lemma str_eqb_refl (a : str) : str_eqb a a = true.
Proof. now apply str_eqb_eq. Qed.

Lemma startswith_app (p s : str) : startswith p (p ++ s) = true.
Proof.
  induction p as [|x p IH]; simpl; [reflexivity|].
  rewrite IH. unfold char_eqb. now rewrite N.eqb_refl.
Qed.

Lemma startswith_inv (p s : str) :
  startswith p s = true -> s = p ++ skipn (length p) s.
Proof.
  revert s; induction p as [|x p IH]; intros [|y s]; simpl; try easy.
  intros H. apply andb_true_iff in H as [H1 H2].
  apply char_eqb_eq in H1. subst y. f_equal. now apply IH.
Qed.

(** [find_split] cuts at an occurrence of [sep]. *)
Lemma find_split_some (sep s b a : str) :
  find_split sep s = Some (b, a) -> s = b ++ sep ++ a.
Proof.
  revert b a; induction s as [|c s IH]; intros b a.
  - simpl. destruct (startswith sep []) eqn:E; [|discriminate].
    intros H; injection H as <- <-. simpl. now apply startswith_inv in E.
  - cbn [find_split]. destruct (startswith sep (c :: s)) eqn:E.
    + intros H; injection H as <- <-. simpl. now apply startswith_inv in E.
    + destruct (find_split sep s) as [[b' a']|] eqn:F; [|discriminate].
      intros H; injection H as <- <-. simpl. f_equal. now apply IH.
Qed.

(** ... and at the first one: no occurrence starts before it. *)
Lemma find_split_first (sep s b a : str) :
  find_split sep s = Some (b, a) ->
  forall b' a', s = b' ++ sep ++ a' -> length b <= length b'.
Proof.
  revert b a; induction s as [|c s IH]; intros b a.
  - simpl. destruct (startswith sep []); [|discriminate].
    intros H; injection H as <- <-. simpl. lia.
  - cbn [find_split]. destruct (startswith sep (c :: s)) eqn:E.
    + intros H; injection H as <- <-. simpl. lia.
    + destruct (find_split sep s) as [[b0 a0]|] eqn:F; [|discriminate].
      intros H; injection H as <- <-. intros [|x b'] a' Hs.
      * simpl in Hs. rewrite Hs, startswith_app in E. discriminate.
      * simpl in Hs. injection Hs as -> Hs. simpl.
        specialize (IH _ _ eq_refl _ _ Hs). lia.
Qed.

Lemma find_split_none (sep s : str) :
  find_split sep s = None -> forall b a, s <> b ++ sep ++ a.
Proof.
  induction s as [|c s IH].
  - simpl. destruct (startswith sep []) eqn:E; [discriminate|].
    intros _ [|x b] a Hs; [|discriminate].
    simpl in Hs. rewrite Hs, startswith_app in E. discriminate.
  - cbn [find_split]. destruct (startswith sep (c :: s)) eqn:E; [discriminate|].
    destruct (find_split sep s) as [[b0 a0]|] eqn:F; [discriminate|].
    intros _ [|x b] a Hs.
    + simpl in Hs. rewrite Hs, startswith_app in E. discriminate.
    + simpl in Hs. injection Hs as -> Hs. exact (IH eq_refl _ _ Hs).
Qed.

(** ** [unify_prompt_ending] *)

Import Formatter.

Lemma drop_while_split (f : char -> bool) (q : str) :
  exists t, q = t ++ drop_while f q /\ forallb f t = true /\
            (drop_while f q = [] \/
             exists c r, drop_while f q = c :: r /\ f c = false).
Proof.
  induction q as [|c q (t & Hq & Ht & Hd)]; simpl.
  - exists []. auto.
  - destruct (f c) eqn:E.
    + exists (c :: t). simpl. rewrite E, Ht. split; [now f_equal|]. auto.
    + exists []. simpl. split; [reflexivity|]. split; [reflexivity|].
      right. now exists c, q.
Qed.

(** A prompt is its retained prefix followed by trimmable characters only,
    and the retained prefix does not end with a trimmable character. *)
Lemma retained_split (p : str) :
  exists t, p = retained p ++ t /\ forallb trimmable t = true /\
            (retained p = [] \/
             exists r c, retained p = r ++ [c] /\ trimmable c = false).
Proof.
  unfold retained.
  destruct (drop_while_split trimmable (rev p)) as (t & Hq & Ht & Hd).
  exists (rev t). split; [|split].
  - rewrite <- rev_app_distr, <- Hq. now rewrite rev_involutive.
  - rewrite forallb_forall in *. intros x Hx. apply Ht. now apply in_rev.
  - destruct Hd as [-> | (c & r & -> & Hc)]; [now left|].
    right. exists (rev r), c. now simpl.
Qed.

Lemma unify_from_skip_trimmable (r t : str) (k : nat) :
  forallb trimmable t = true -> k <= length t ->
  unify_prompt_ending_from (r ++ t) (length r + k - 1)
  = unify_prompt_ending_from (r ++ t) (length r - 1).
Proof.
  intros Ht. induction k as [|k IH]; intros Hk.
  - now rewrite Nat.add_0_r.
  - destruct (length r + k) as [|i] eqn:E.
    + replace (length r + S k - 1) with 0 by lia.
      now replace (length r - 1) with 0 by lia.
    + replace (length r + S k - 1) with (S i) by lia.
      cbn [unify_prompt_ending_from].
      assert (Hc : trimmable (nth (S i) (r ++ t) 0%N) = true).
      { rewrite <- E, app_nth2 by lia.
        replace (length r + k - length r) with k by lia.
        rewrite forallb_forall in Ht. apply Ht. apply nth_In. lia. }
      unfold trimmable in Hc. rewrite Hc. cbn [negb].
      rewrite <- IH by lia. f_equal. lia.
Qed.

(** What the loop computes: index 0 is never examined, so a retained prefix
    of one character is lost. *)
Lemma unify_prompt_ending_char (prompt : str) :
  unify_prompt_ending prompt =
  if Nat.leb (length (retained prompt)) 1 then [nl]
  else retained prompt ++ [nl].
Proof.
  destruct (retained_split prompt) as (t & Hp & Ht & Hr).
  unfold unify_prompt_ending. rewrite Hp at 1 2.
  rewrite length_app.
  rewrite (unify_from_skip_trimmable (retained prompt) t (length t)) by auto.
  destruct Hr as [-> | (r & c & -> & Hc)]; [reflexivity|].
  rewrite length_app. simpl length.
  replace (length r + 1 - 1) with (length r) by lia.
  destruct (length r) as [|i] eqn:E.
  - reflexivity.
  - replace (Nat.leb (S i + 1) 1) with false
      by (symmetry; apply Nat.leb_gt; lia).
    cbn [unify_prompt_ending_from].
    rewrite <- E, <- app_assoc, app_nth2 by lia.
    rewrite Nat.sub_diag. simpl nth.
    unfold trimmable in Hc. rewrite Hc. cbn [negb].
    f_equal. rewrite app_assoc. rewrite firstn_app.
    rewrite length_app. simpl length.
    replace (length r + 1 - (length r + 1)) with 0 by lia.
    rewrite firstn_all2 by (rewrite length_app; simpl; lia).
    simpl. now rewrite app_nil_r.
Qed.

(** The example of the spec holds on the code. *)
Example unify_prompt_ending_example :
  unify_prompt_ending (py "  - name: foo:  ") = py "  - name: foo" ++ [nl].
Proof. reflexivity. Qed.

(** C2 (code defect): the spec asks for the retained prefix followed by one
    newline; on the prompt ["a:"] that is ["a\n"], but the loop stops before
    index 0 and the code returns ["\n"]. *)
Theorem unify_prompt_ending_loses_single_char :
  unify_prompt_ending (py "a:") = [nl] /\
  unify_prompt_ending_spec (py "a:") = py "a" ++ [nl] /\
  unify_prompt_ending (py "a:") <> unify_prompt_ending_spec (py "a:").
Proof. repeat split; try reflexivity. discriminate. Qed.

(** ** [get_task_count_from_prompt] *)

Lemma find_split_char_cons (c x : char) (s : str) :
  find_split [c] (x :: s) =
  if char_eqb x c then Some ([], s)
  else match find_split [c] s with
       | Some (b, a) => Some (x :: b, a)
       | None => None
       end.
Proof.
  cbn [find_split startswith length skipn]. rewrite andb_true_r.
  unfold char_eqb. now rewrite (N.eqb_sym c x).
Qed.

Lemma find_split_char_count (c : char) (s : str) :
  match find_split [c] s with
  | None => count_char c s = 0
  | Some (_, a) => count_char c s = S (count_char c a)
  end.
Proof.
  induction s as [|x s IH]; [reflexivity|].
  rewrite find_split_char_cons. cbn [count_char].
  destruct (char_eqb x c); [reflexivity|].
  destruct (find_split [c] s) as [[b a]|]; exact IH.
Qed.

Lemma count_char_le_length (c : char) (s : str) : count_char c s <= length s.
Proof.
  induction s as [|x s IH]; simpl; [lia|]. destruct (char_eqb x c); lia.
Qed.

(** Splitting on one character yields one piece more than the string holds
    occurrences of it. *)
Lemma split_max_char_length (c : char) (n : nat) (s : str) :
  count_char c s <= n ->
  length (split_max n [c] s) = S (count_char c s).
Proof.
  revert s; induction n as [|n IH]; intros s Hn.
  - simpl. lia.
  - cbn [split_max]. pose proof (find_split_char_count c s) as H.
    destruct (find_split [c] s) as [[b a]|].
    + simpl. rewrite IH; lia.
    + simpl. lia.
Qed.

Lemma split_char_length (c : char) (s : str) :
  length (split [c] s) = S (count_char c s).
Proof. apply split_max_char_length, count_char_le_length. Qed.

(** C9 as stated fails on the empty prompt: the code returns 0 there,
    while the trimmed empty prompt has one segment. *)
Lemma get_task_count_from_prompt_empty :
  ~ (get_task_count_from_prompt [] = length (split (py "&") (strip []))
     /\ 1 <= get_task_count_from_prompt []).
Proof. cbv. intros [H _]. discriminate. Qed.

(** C9 (amended): for a non-empty prompt the count is the number of
    [&]-separated segments of the trimmed prompt, one more than the number
    of [&] in it, hence at least 1; the empty prompt counts 0 tasks. *)
Theorem get_task_count_from_prompt_segments (prompt : str) :
  (prompt <> [] ->
     get_task_count_from_prompt prompt = length (split (py "&") (strip prompt))
     /\ get_task_count_from_prompt prompt = S (count_char ampersand (strip prompt))
     /\ 1 <= get_task_count_from_prompt prompt)
  /\ (prompt = [] -> get_task_count_from_prompt prompt = 0).
Proof.
  split.
  - intros Hne. unfold get_task_count_from_prompt.
    destruct prompt as [|c p]; [congruence|]. cbn [nonempty].
    change (py "&") with [ampersand].
    rewrite split_char_length. repeat split; lia.
  - intros ->. reflexivity.
Qed.

Lemma get_task_count_from_prompt_segments_witness :
  py "install nginx & restart it" <> [] /\
  get_task_count_from_prompt (py "install nginx & restart it") = 2.
Proof.
  split; [discriminate|].
  destruct (get_task_count_from_prompt_segments (py "install nginx & restart it"))
    as [H _].
  destruct (H ltac:(discriminate)) as (_ & -> & _). reflexivity.
Defined.

(** ** [get_task_names_from_tasks] *)

Section TaskNames.

Context {Y : YamlLib}.

Lemma task_names_mapM (l : list pyval) :
  if forallb has_name l
  then mapM (fun task => py_getitem_str task (py "name")) l = Ok (map name_of l)
  else exists e, mapM (fun task => py_getitem_str task (py "name")) l = Raise e.
Proof.
  induction l as [|t l IH]; [reflexivity|].
  cbn [forallb mapM map].
  destruct t as [| | | | |d]; cbn [has_name py_getitem_str bind andb];
    try (eexists; reflexivity).
  unfold dict_mem, name_of.
  destruct (dict_get d (KStr (py "name"))) as [v|]; cbn [bind andb].
  - destruct (forallb has_name l).
    + now rewrite IH.
    + destruct IH as [e ->]. eexists; reflexivity.
  - eexists; reflexivity.
Qed.

(** C10: [get_task_names_from_tasks] returns exactly when the text parses
    to a non-empty list whose first element is a mapping with a string
    [name] and whose every element has a [name] key, and then returns the
    [name] values in document order; in every other case it raises. *)
Theorem get_task_names_from_tasks_spec (tasks : str) :
  match yaml_load tasks with
  | Ok (PList l) =>
      if first_has_string_name l && forallb has_name l
      then get_task_names_from_tasks tasks = Ok (map name_of l)
      else exists e, get_task_names_from_tasks tasks = Raise e
  | _ => exists e, get_task_names_from_tasks tasks = Raise e
  end.
Proof.
  unfold get_task_names_from_tasks.
  destruct (yaml_load tasks) as [v|e]; cbn [bind]; [|eexists; reflexivity].
  destruct v as [| | | |l|]; try (eexists; reflexivity).
  destruct l as [|t0 l]; [eexists; reflexivity|].
  cbn [first_has_string_name].
  destruct t0 as [| | | | |d0]; cbn [andb]; try (eexists; reflexivity).
  destruct (dict_get d0 (KStr (py "name"))) as [[| | |n| |]|] eqn:E;
    cbn [andb]; try (eexists; reflexivity).
  exact (task_names_mapM (PDict d0 :: l)).
Qed.

End TaskNames.

Example get_task_names_from_tasks_sample :
  get_task_names_from_tasks (Y := Sample.yaml)
    (Sample.lines ["- name:  Install"%string; "- name:  Start"%string;
                   "- name:  Extra"%string])
  = Ok [PStr (py "Install"); PStr (py "Start"); PStr (py "Extra")].
Proof. reflexivity. Qed.

(** ** [preprocess]: empty documents and multi-task prompts *)

Section Preprocess.

Context {Y : YamlLib}.

(** C4: when the normalizer yields [None], [preprocess] returns the pair
    it was given; when it yields a text and the prompt is multi-task, the
    text is the new context and the prompt is returned as it was given. *)
Theorem preprocess_none_and_multi_task
    (context prompt ansible_file_type : str) (additional_context : pyval) :
  (normalize_yaml (context ++ [nl] ++ prompt) ansible_file_type additional_context
   = Ok None ->
   preprocess context prompt ansible_file_type additional_context
   = Ok (context, prompt))
  /\ (forall formatted,
        normalize_yaml (context ++ [nl] ++ prompt) ansible_file_type
          additional_context = Ok (Some formatted) ->
        is_multi_task_prompt prompt = true ->
        preprocess context prompt ansible_file_type additional_context
        = Ok (formatted, prompt)).
Proof.
  unfold preprocess. split.
  - now intros ->.
  - intros formatted -> Hm. cbn [bind]. now rewrite Hm.
Qed.

End Preprocess.

Lemma preprocess_none_and_multi_task_witness :
  preprocess (Y := Sample.yaml) [] [] (py "playbook") PNone = Ok ([], [])
  /\ preprocess (Y := Sample.yaml)
       (Sample.lines ["- hosts: all"%string; "  tasks:"%string])
       (py "    # install nginx & start it") (py "playbook") PNone
     = Ok (Sample.lines ["- hosts: all"%string; "  tasks:"%string],
           py "    # install nginx & start it").
Proof.
  split.
  - apply (proj1 (preprocess_none_and_multi_task (Y := Sample.yaml) _ _ _ _)).
    vm_compute. reflexivity.
  - apply (proj2 (preprocess_none_and_multi_task (Y := Sample.yaml) _ _ _ _)).
    + vm_compute. reflexivity.
    + vm_compute. reflexivity.
Defined.

(** ** [restore_original_task_names] *)

Section RestoreNames.

Context {Y : YamlLib}.

Lemma task_ok_name (t : pyval) :
  task_ok t = true -> py_get t (py "name") (PStr []) = Ok (PStr (task_name t)).
Proof.
  destruct t as [| | | | |d]; try discriminate.
  unfold task_name, name_of. cbn [task_ok py_get].
  now destruct (dict_get d (KStr (py "name"))) as [[| | |s| |]|].
Qed.

Lemma skipn_nth_error {A} (l : list A) (i : nat) :
  skipn i l = match nth_error l i with
              | Some x => x :: skipn (S i) l
              | None => []
              end.
Proof.
  revert l; induction i as [|i IH]; intros [|x l]; try reflexivity.
  exact (IH l).
Qed.

(** A task the loop cannot handle makes it raise. *)
Lemma task_not_ok_raises (t : pyval) :
  task_ok t = false ->
  (exists e, py_get t (py "name") (PStr []) = Raise e /\ e = AttributeError)
  \/ (exists v, py_get t (py "name") (PStr []) = Ok v
                /\ forall s, v <> PStr s).
Proof.
  destruct t as [| | | | |d]; cbn [task_ok py_get];
    try (intros _; left; eexists; split; reflexivity).
  destruct (dict_get d (KStr (py "name"))) as [[| | |s| |]|]; try discriminate;
    intros _; right; eexists; (split; [reflexivity | discriminate]).
Qed.

Lemma restore_task_names_from_result (names : list str) (tasks : list pyval) :
  forall i out,
    (forallb task_ok (firstn (S (length names - i)) tasks) = true ->
     restore_task_names_from names i tasks out
     = Ok (restore_names (skipn i names) tasks out))
    /\ (forallb task_ok (firstn (S (length names - i)) tasks) = false ->
        exists e,
          restore_task_names_from names i tasks out = Raise e
          /\ (e = TypeError \/ e = AttributeError)).
Proof.
  unfold restore_names.
  induction tasks as [|t tasks IH]; intros i out.
  - split; [reflexivity | discriminate].
  - cbn [firstn forallb restore_task_names_from].
    destruct (task_ok t) eqn:Ht; cbn [andb].
    + rewrite (task_ok_name t Ht). cbn [bind].
      rewrite (skipn_nth_error names i).
      destruct (nth_error names i) as [n|] eqn:En.
      * assert (Hi : i < length names).
        { apply nth_error_Some. now rewrite En. }
        replace (length names - i) with (S (length names - S i)) by lia.
        cbn [combine fold_left fst snd]. apply IH.
      * split; [reflexivity|].
        apply nth_error_None in En.
        replace (length names - i) with 0 by lia. discriminate.
    + split; [discriminate|]. intros _.
      destruct (task_not_ok_raises t Ht) as [(e & -> & ->) | (v & -> & Hv)].
      * exists AttributeError. split; [reflexivity | now right].
      * exists TypeError. cbn [bind]. split; [|now left].
        destruct v as [| | |s| |]; try reflexivity. now destruct (Hv s).
Qed.

(** C5 (amended): a prompt that is not multi-task, an empty output and a
    YAML parse failure on either document all give back [output_yaml].
    When both documents parse to task lists, the loop reaches the suggested
    tasks that get a prompted name and the one at which the names run out:
    when each of them is a mapping with a textual (or no) [name] the call
    returns, with the substitutions made for the tasks that have a prompted
    name and the remaining tasks left alone; when one of them is not, a
    [TypeError] or an [AttributeError] comes out of the call. *)
Theorem restore_original_task_names_returns
    (output_yaml prompt payload_context : str) :
  (nonempty output_yaml && is_multi_task_prompt prompt = false ->
   restore_original_task_names output_yaml prompt payload_context
   = Ok output_yaml)
  /\ ((exists e, yaml_load payload_context = Raise e) \/
      (exists e, yaml_load (payload_context ++ output_yaml) = Raise e) ->
      restore_original_task_names output_yaml prompt payload_context
      = Ok output_yaml)
  /\ (forall payload_context_data full_data context_tasks full_tasks,
        nonempty output_yaml && is_multi_task_prompt prompt = true ->
        yaml_load payload_context = Ok payload_context_data ->
        yaml_load (payload_context ++ output_yaml) = Ok full_data ->
        get_task_list_from_yaml_data_obj payload_context_data
        = PList context_tasks ->
        get_task_list_from_yaml_data_obj full_data = PList full_tasks ->
        (forallb task_ok
           (reached_tasks (get_task_names_from_prompt prompt)
              (skipn (length context_tasks) full_tasks)) = true ->
         restore_original_task_names output_yaml prompt payload_context
         = Ok (restore_names (get_task_names_from_prompt prompt)
                 (skipn (length context_tasks) full_tasks) output_yaml))
        /\ (forallb task_ok
              (reached_tasks (get_task_names_from_prompt prompt)
                 (skipn (length context_tasks) full_tasks)) = false ->
            exists e,
              restore_original_task_names output_yaml prompt payload_context
              = Raise e
              /\ (e = TypeError \/ e = AttributeError))).
Proof.
  unfold restore_original_task_names. split; [|split].
  - now intros ->.
  - intros [[e He] | [e He]]; destruct (_ && _); try reflexivity.
    + now rewrite He.
    + rewrite He. now destruct (yaml_load payload_context).
  - intros pcd fd ct ft -> -> -> -> ->. cbn [py_len py_slice_from bind].
    unfold reached_tasks.
    pose proof (restore_task_names_from_result
                  (get_task_names_from_prompt prompt)
                  (skipn (length ct) ft) 0 output_yaml) as H.
    now rewrite Nat.sub_0_r in H.
Qed.

End RestoreNames.

(** C5 as stated fails: with the prompt [# a] and a suggestion whose second
    task is named by a number, the names are exhausted at the second task
    but the code raises [TypeError] before it looks for the second name. *)
Lemma restore_original_task_names_raises :
  restore_original_task_names (Y := Sample.yaml)
    (Sample.lines ["- name:  x"%string; "- name:  5"%string]) (py "# a") []
  = Raise TypeError.
Proof. vm_compute. reflexivity. Qed.

Lemma restore_original_task_names_returns_witness :
  restore_original_task_names (Y := Sample.yaml)
    (Sample.lines ["- name:  Install"%string; "- name:  Start"%string;
                   "- name:  Extra"%string])
    (py "# install nginx & start it") []
  = Ok (Sample.lines ["- name:  install nginx"%string;
                      "- name:  start it"%string; "- name:  Extra"%string])
  /\ restore_original_task_names (Y := Sample.yaml)
       (py "- name: [") (py "# install nginx") []
     = Ok (py "- name: [")
  /\ restore_original_task_names (Y := Sample.yaml)
       (py "- name:  Install") (py "- name: install nginx") []
     = Ok (py "- name:  Install").
Proof.
  split; [|split].
  - pose proof (proj2 (proj2 (restore_original_task_names_returns
      (Y := Sample.yaml)
      (Sample.lines ["- name:  Install"%string; "- name:  Start"%string;
                     "- name:  Extra"%string])
      (py "# install nginx & start it") []))) as H.
    destruct (H PNone Sample.three_tasks []
                [Sample.task "Install"; Sample.task "Start"; Sample.task "Extra"])
      as [H1 _].
    + vm_compute. reflexivity.
    + vm_compute. reflexivity.
    + vm_compute. reflexivity.
    + vm_compute. reflexivity.
    + vm_compute. reflexivity.
    + rewrite H1; vm_compute; reflexivity.
  - apply (proj1 (proj2 (restore_original_task_names_returns
      (Y := Sample.yaml) _ _ _))).
    right. exists YAMLError. vm_compute. reflexivity.
  - apply (proj1 (restore_original_task_names_returns (Y := Sample.yaml) _ _ _)).
    vm_compute. reflexivity.
Defined.

(** ** Dictionaries *)

Lemma key_eqb_norm (a b : pykey) :
  key_eqb a b = true <-> key_norm a = key_norm b.
Proof.
  destruct a as [|[]|x|s], b as [|[]|y|t];
    cbn [key_eqb key_num key_norm]; split; intros H;
    try reflexivity; try discriminate;
    try (apply Z.eqb_eq in H; congruence);
    try (apply str_eqb_eq in H; congruence);
    try (apply Z.eqb_eq; congruence);
    try (apply str_eqb_eq; congruence).
Qed.

Lemma key_eqb_refl (k : pykey) : key_eqb k k = true.
Proof. now apply key_eqb_norm. Qed.

Lemma key_eqb_sym (a b : pykey) : key_eqb a b = key_eqb b a.
Proof.
  destruct (key_eqb a b) eqn:E1, (key_eqb b a) eqn:E2; try reflexivity.
  - apply key_eqb_norm in E1. symmetry in E1. apply key_eqb_norm in E1. congruence.
  - apply key_eqb_norm in E2. symmetry in E2. apply key_eqb_norm in E2. congruence.
Qed.

Lemma key_eqb_trans (a b c : pykey) :
  key_eqb a b = true -> key_eqb b c = true -> key_eqb a c = true.
Proof. rewrite !key_eqb_norm. congruence. Qed.

Lemma key_eqb_str (s : str) (k : pykey) :
  key_eqb (KStr s) k = true -> k = KStr s.
Proof.
  destruct k as [|[]|z|t]; simpl; try discriminate.
  intros H. apply str_eqb_eq in H. congruence.
Qed.

(** Equal keys look up the same entry. *)
Lemma dict_get_eqb (d : dict) (a b : pykey) :
  key_eqb a b = true -> dict_get d a = dict_get d b.
Proof.
  intros H. induction d as [|[k v] d IH]; [reflexivity|]. simpl.
  destruct (key_eqb k a) eqn:Ea, (key_eqb k b) eqn:Eb; auto.
  - rewrite (key_eqb_trans _ _ _ Ea H) in Eb. discriminate.
  - rewrite key_eqb_sym in H. rewrite (key_eqb_trans _ _ _ Eb H) in Ea.
    discriminate.
Qed.

Lemma dict_mem_eqb (d : dict) (a b : pykey) :
  key_eqb a b = true -> dict_mem d a = dict_mem d b.
Proof. intros H. unfold dict_mem. now rewrite (dict_get_eqb d _ _ H). Qed.

Lemma dict_mem_cons (k k' : pykey) (v : pyval) (d : dict) :
  dict_mem ((k, v) :: d) k' = key_eqb k k' || dict_mem d k'.
Proof. unfold dict_mem. simpl. now destruct (key_eqb k k'). Qed.

Lemma dict_mem_app (d1 d2 : dict) (k : pykey) :
  dict_mem (d1 ++ d2) k = dict_mem d1 k || dict_mem d2 k.
Proof.
  induction d1 as [|[k1 v1] d1 IH]; [reflexivity|].
  simpl app. rewrite !dict_mem_cons, IH. now rewrite orb_assoc.
Qed.

(** A non-empty dict ends with the entry of its last key. *)
Lemma last_key_snoc (d : dict) (k : pykey) (v : pyval) :
  last_key (d ++ [(k, v)]) = Some k.
Proof.
  induction d as [|[k1 v1] d IH]; [reflexivity|].
  simpl app. cbn [last_key]. rewrite IH. now destruct (d ++ [(k, v)]) eqn:E;
    [destruct d; discriminate|].
Qed.

Lemma last_key_rev_keys (d : dict) :
  hd_error (rev (dict_keys d)) = last_key d.
Proof.
  destruct d as [|e d] using rev_ind; [reflexivity|].
  destruct e as [k v]. rewrite last_key_snoc.
  unfold dict_keys. rewrite map_app, rev_app_distr. reflexivity.
Qed.

Lemma last_key_split (d : dict) (k : pykey) :
  last_key d = Some k -> exists d0 v, d = d0 ++ [(k, v)].
Proof.
  destruct d as [|e d _] using rev_ind; [discriminate|].
  destruct e as [k' v]. rewrite last_key_snoc. intros H; injection H as ->.
  now exists d, v.
Qed.

Lemma dict_wf_app (d1 d2 : dict) :
  dict_wf (d1 ++ d2) = true ->
  dict_wf d1 = true /\ dict_wf d2 = true /\
  forall k, dict_mem d2 k = true -> dict_mem d1 k = false.
Proof.
  induction d1 as [|[k1 v1] d1 IH]; simpl.
  - intros H. auto.
  - intros H. apply andb_true_iff in H as [H1 H2].
    rewrite dict_mem_app in H1. apply negb_true_iff, orb_false_iff in H1 as [H1 H1'].
    destruct (IH H2) as (Hw1 & Hw2 & Hd). rewrite H1, Hw1. repeat split; auto.
    intros k Hk. rewrite dict_mem_cons, (Hd k Hk), orb_false_r.
    destruct (key_eqb k1 k) eqn:E; [|reflexivity].
    rewrite (dict_mem_eqb d2 _ _ E) in H1'. congruence.
Qed.

Lemma dict_get_snoc (d : dict) (k : pykey) (v : pyval) :
  dict_mem d k = false -> dict_get (d ++ [(k, v)]) k = Some v.
Proof.
  induction d as [|[k1 v1] d IH]; simpl.
  - now rewrite key_eqb_refl.
  - rewrite dict_mem_cons. intros H. apply orb_false_iff in H as [-> H]. auto.
Qed.

Lemma dict_del_snoc (d : dict) (k : pykey) (v : pyval) :
  dict_mem d k = false -> dict_del (d ++ [(k, v)]) k = d.
Proof.
  induction d as [|[k1 v1] d IH]; simpl.
  - now rewrite key_eqb_refl.
  - rewrite dict_mem_cons. intros H. apply orb_false_iff in H as [-> H].
    now rewrite IH.
Qed.

Lemma dict_set_absent (d : dict) (k : pykey) (v : pyval) :
  dict_mem d k = false -> dict_set d k v = d ++ [(k, v)].
Proof.
  induction d as [|[k1 v1] d IH]; simpl; [reflexivity|].
  rewrite dict_mem_cons. intros H. apply orb_false_iff in H as [-> H].
  now rewrite IH.
Qed.

Lemma dict_set_keys (d : dict) (k : pykey) (v : pyval) :
  dict_mem d k = true -> dict_keys (dict_set d k v) = dict_keys d.
Proof.
  induction d as [|[k1 v1] d IH]; simpl; [discriminate|].
  rewrite dict_mem_cons. destruct (key_eqb k1 k); simpl; [reflexivity|].
  intros H. now rewrite IH.
Qed.

Lemma dict_mem_keys (d d' : dict) :
  dict_keys d = dict_keys d' -> forall k, dict_mem d k = dict_mem d' k.
Proof.
  revert d'; induction d as [|[k1 v1] d IH]; intros [|[k2 v2] d'] H k;
    try discriminate; [reflexivity|].
  simpl in H. injection H as -> H. rewrite !dict_mem_cons. now rewrite (IH _ H).
Qed.

Lemma dict_wf_keys (d d' : dict) :
  dict_keys d = dict_keys d' -> dict_wf d = dict_wf d'.
Proof.
  revert d'; induction d as [|[k1 v1] d IH]; intros [|[k2 v2] d'] H;
    try discriminate; [reflexivity|].
  simpl in H. injection H as -> H. simpl.
  now rewrite (IH _ H), (dict_mem_keys _ _ H).
Qed.

Lemma last_key_keys (d d' : dict) :
  dict_keys d = dict_keys d' -> last_key d = last_key d'.
Proof. intros H. now rewrite <- !last_key_rev_keys, H. Qed.

Lemma dict_mem_set (d : dict) (k k' : pykey) (v : pyval) :
  dict_mem (dict_set d k v) k' = dict_mem d k' || key_eqb k k'.
Proof.
  induction d as [|[k1 v1] d IH]; simpl.
  - rewrite dict_mem_cons. unfold dict_mem. simpl. now rewrite orb_false_r.
  - destruct (key_eqb k1 k) eqn:E; rewrite !dict_mem_cons.
    + destruct (key_eqb k1 k') eqn:E'; [reflexivity|]. simpl.
      destruct (key_eqb k k') eqn:E''; [|now rewrite orb_false_r].
      rewrite (key_eqb_trans _ _ _ E E'') in E'. discriminate.
    + rewrite IH. now rewrite orb_assoc.
Qed.

Lemma dict_wf_set (d : dict) (k : pykey) (v : pyval) :
  dict_wf d = true -> dict_wf (dict_set d k v) = true.
Proof.
  intros Hw. destruct (dict_mem d k) eqn:E.
  - now rewrite (dict_wf_keys _ d (dict_set_keys d k v E)).
  - rewrite (dict_set_absent d k v E).
    induction d as [|[k1 v1] d IH]; [reflexivity|].
    simpl in *. apply andb_true_iff in Hw as [H1 H2].
    rewrite dict_mem_cons in E. apply orb_false_iff in E as [E1 E2].
    rewrite dict_mem_app, dict_mem_cons. apply negb_true_iff in H1.
    rewrite H1. simpl. rewrite key_eqb_sym, E1. simpl. now apply IH.
Qed.

Lemma dict_del_absent (d : dict) (k : pykey) :
  dict_wf d = true -> dict_mem (dict_del d k) k = false.
Proof.
  induction d as [|[k1 v1] d IH]; simpl; [reflexivity|].
  intros H. apply andb_true_iff in H as [H1 H2]. apply negb_true_iff in H1.
  destruct (key_eqb k1 k) eqn:E.
  - now rewrite <- (dict_mem_eqb d _ _ E).
  - rewrite dict_mem_cons, E. now apply IH.
Qed.

Lemma dict_del_other_last (d : dict) (k k' : pykey) (v : pyval) :
  key_eqb k k' = false ->
  last_key (dict_del (d ++ [(k, v)]) k') = Some k.
Proof.
  intros E. induction d as [|[k1 v1] d IH]; simpl.
  - now rewrite E.
  - destruct (key_eqb k1 k'); [apply last_key_snoc|].
    cbn [last_key]. rewrite IH.
    destruct (dict_del (d ++ [(k, v)]) k') eqn:Ed; [|reflexivity].
    discriminate IH.
Qed.

(** ** Context expansion of a playbook *)

Lemma dict_get_set (d : dict) (k k' : pykey) (v : pyval) :
  dict_get (dict_set d k v) k' = if key_eqb k k' then Some v else dict_get d k'.
Proof.
  induction d as [|[k1 v1] d IH]; cbn [dict_set dict_get]; [reflexivity|].
  destruct (key_eqb k1 k) eqn:E; cbn [dict_get].
  - destruct (key_eqb k1 k') eqn:E1, (key_eqb k k') eqn:E2; try reflexivity.
    + rewrite key_eqb_sym in E. rewrite (key_eqb_trans _ _ _ E E1) in E2.
      discriminate.
    + rewrite (key_eqb_trans _ _ _ E E2) in E1. discriminate.
  - rewrite IH. destruct (key_eqb k1 k') eqn:E1; [|reflexivity].
    destruct (key_eqb k k') eqn:E2; [|reflexivity].
    rewrite key_eqb_sym in E2. rewrite (key_eqb_trans _ _ _ E1 E2) in E.
    discriminate.
Qed.

Section ExpandVars.

Context {Y : YamlLib}.

Lemma mapM_Forall2 {A B} (f : A -> result B) (l : list A) (l' : list B) :
  mapM f l = Ok l' -> Forall2 (fun a b => f a = Ok b) l l'.
Proof.
  revert l'; induction l as [|a l IH]; intros l'; cbn [mapM].
  - intros H; injection H as <-. constructor.
  - destruct (f a) as [b|e] eqn:Ea; cbn [bind]; [|discriminate].
    destruct (mapM f l) as [bs|e]; cbn [bind]; [|discriminate].
    intros H; injection H as <-. constructor; auto.
Qed.

(** After the last key has been put back, it ends the play again. *)
Lemma put_back_last (d0 : dict) (k : pykey) (lv nv : pyval) :
  dict_wf d0 = true -> dict_mem d0 k = false ->
  let d3 := dict_set (dict_set d0 (KStr (py "vars")) nv) k lv in
  last_key d3 = Some k /\ dict_wf d3 = true.
Proof.
  intros Hw Hk d3. split; [|now apply dict_wf_set, dict_wf_set].
  subst d3. set (d2 := dict_set d0 (KStr (py "vars")) nv).
  destruct (dict_mem d2 k) eqn:E.
  - unfold d2 in E. rewrite dict_mem_set, Hk in E. cbn [orb] in E.
    apply key_eqb_str in E. subst k. unfold d2.
    rewrite (dict_set_absent d0 _ nv Hk).
    rewrite (last_key_keys _ (d0 ++ [(KStr (py "vars"), nv)])).
    + apply last_key_snoc.
    + apply dict_set_keys. rewrite dict_mem_app, Hk. cbn [orb].
      rewrite dict_mem_cons. now rewrite key_eqb_refl.
  - rewrite (dict_set_absent d2 k lv E). apply last_key_snoc.
Qed.

(** When [vars_files] comes out empty, every entry of it was one of the
    names. *)
Lemma drop_vars_files_consumed (keys : list pykey) :
  forall files files',
    drop_vars_files keys files = Ok files' ->
    py_len files' = Ok 0 ->
    exists items,
      py_iter files = Ok items
      /\ forallb (fun file => existsb (val_eq_key file) keys) items = true.
Proof.
  induction keys as [|k keys IH]; intros files files'.
  - cbn [drop_vars_files]. intros H; injection H as <-.
    destruct files as [| | |s|l|d]; cbn [py_len py_iter]; try discriminate;
      intros H; injection H as H; apply length_zero_iff_nil in H; subst;
      eexists; (split; [reflexivity|reflexivity]).
  - cbn [drop_vars_files]. unfold drop_vars_file.
    destruct (py_iter files) as [items|e]; cbn [bind]; [|discriminate].
    intros Hd Hl. destruct (IH _ _ Hd Hl) as (items1 & Hi & Hall).
    cbn [py_iter] in Hi. injection Hi as <-.
    exists items. split; [reflexivity|].
    apply forallb_forall. intros file Hin. cbn [existsb].
    destruct (val_eq_key file k) eqn:E; [reflexivity|]. cbn [orb].
    rewrite forallb_forall in Hall. apply Hall.
    apply filter_In. split; [exact Hin | now rewrite E].
Qed.

Lemma expand_play_last_key (merged_vars : dict) (var_infile_keys : list pykey)
    (d : dict) (play' : pyval) :
  dict_wf d = true ->
  expand_play merged_vars var_infile_keys (PDict d) = Ok play' ->
  last_key_kept var_infile_keys (PDict d) play'.
Proof.
  intros Hw. unfold expand_play. cbn [py_keys bind].
  pose proof (last_key_rev_keys d) as Hl.
  destruct (rev (dict_keys d)) as [|k ks]; [discriminate|].
  cbn [hd_error] in Hl. symmetry in Hl.
  destruct (last_key_split d k Hl) as (d0 & lv & ->).
  destruct (dict_wf_app _ _ Hw) as (Hw0 & _ & Hd).
  assert (Hk : dict_mem d0 k = false).
  { apply Hd. rewrite dict_mem_cons. now rewrite key_eqb_refl. }
  unfold dict_pop. rewrite (dict_get_snoc d0 k lv Hk), (dict_del_snoc d0 k lv Hk).
  cbn [bind].
  set (new_vars := match dict_get d0 (KStr (py "vars")) with
                   | None => Ok (PDict merged_vars)
                   | Some (PDict old) => Ok (PDict (dict_or old merged_vars))
                   | Some _ => Raise TypeError
                   end).
  destruct new_vars as [nv|e]; cbn [bind]; [|discriminate].
  destruct (put_back_last d0 k lv nv Hw0 Hk) as [Hlast Hw3].
  set (d3 := dict_set (dict_set d0 (KStr (py "vars")) nv) k lv) in *.
  unfold last_key_kept. cbn [play_last_key]. rewrite Hl.
  destruct (dict_get d3 (KStr (py "vars_files"))) as [files|] eqn:Ef.
  - destruct (drop_vars_files var_infile_keys files) as [files'|e] eqn:Edrop;
      cbn [bind]; [|discriminate].
    destruct (py_len files') as [n|e] eqn:Elen; cbn [bind]; [|discriminate].
    assert (Hm : dict_mem d3 (KStr (py "vars_files")) = true).
    { unfold dict_mem. now rewrite Ef. }
    pose proof (dict_set_keys d3 (KStr (py "vars_files")) files' Hm) as Hkeys.
    set (d4 := dict_set d3 (KStr (py "vars_files")) files') in *.
    destruct (Nat.eqb n 0) eqn:En.
    + intros H; injection H as <-. cbn [play_last_key lacks_vars_files].
      destruct (key_eqb k vars_files_key) eqn:Ek.
      * right. rewrite key_eqb_sym in Ek. apply key_eqb_str in Ek. subst k.
        split; [reflexivity|]. split.
        -- apply Nat.eqb_eq in En. subst n.
           destruct (drop_vars_files_consumed _ _ _ Edrop Elen)
             as (items & Hi & Hall).
           unfold d3 in Ef. rewrite dict_get_set, key_eqb_refl in Ef.
           injection Ef as <-.
           cbn [vars_files_consumed].
           change vars_files_key with (KStr (py "vars_files")).
           now rewrite (dict_get_snoc d0 _ lv Hk), Hi.
        -- apply negb_true_iff, dict_del_absent.
           now rewrite (dict_wf_keys d4 d3 Hkeys).
      * left. rewrite <- (last_key_keys _ _ Hkeys) in Hlast.
        destruct (last_key_split d4 k Hlast) as (d4' & v4 & ->).
        now apply dict_del_other_last.
    + intros H; injection H as <-. left. cbn [play_last_key].
      now rewrite (last_key_keys _ _ Hkeys).
  - intros H; injection H as <-. now left.
Qed.

(** C8 (amended): after [expand_vars_files] has run on a playbook, each
    play still ends with the key it ended with before, or else that key was
    [vars_files], every entry of its list was a name of [varInfiles], and
    the expansion has removed the key: a [vars_files] with an entry that is
    not such a name stays last. *)
Theorem expand_vars_files_keeps_last_key
    (plays : list pyval) (additional_context data' : pyval) :
  forallb play_wf plays = true ->
  expand_vars_files (PList plays) (py "playbook") additional_context = Ok data' ->
  exists plays',
    data' = PList plays'
    /\ Forall2 (last_key_kept (var_infile_names additional_context))
               plays plays'.
Proof.
  intros Hw. unfold expand_vars_files.
  replace (str_eqb (py "playbook") (py "playbook")) with true by reflexivity.
  unfold expand_vars_playbook, var_infile_names.
  destruct (py_get additional_context _ _) as [pc|e]; cbn [bind]; [|discriminate].
  destruct (py_get pc (py "varInfiles") _) as [vim|e]; cbn [bind]; [|discriminate].
  destruct (py_values vim) as [vi|e]; cbn [bind]; [|discriminate].
  destruct (py_get pc (py "includeVars") _) as [ivm|e]; cbn [bind]; [|discriminate].
  destruct (py_values ivm) as [iv|e]; cbn [bind]; [|discriminate].
  destruct (load_and_merge_vars_in_context _) as [mv|e]; cbn [bind]; [|discriminate].
  destruct (Nat.ltb 0 (length mv)).
  - cbn [py_iter bind].
    destruct (py_keys vim) as [ks|e]; cbn [bind]; [|discriminate].
    destruct (mapM _ plays) as [plays'|e] eqn:Em; cbn [bind]; [|discriminate].
    intros H; injection H as <-. exists plays'. split; [reflexivity|].
    apply mapM_Forall2 in Em. clear -Em Hw.
    induction Em as [|p p' l l' Hp _ IH]; constructor.
    + cbn [forallb] in Hw. apply andb_true_iff in Hw as [Hp' _].
      destruct p as [| | | | |d]; try discriminate Hp.
      exact (expand_play_last_key mv ks d p' Hp' Hp).
    + apply IH. cbn [forallb] in Hw. now apply andb_true_iff in Hw as [_ ?].
  - intros H; injection H as <-. exists plays. split; [reflexivity|].
    clear. induction plays; constructor; auto. now left.
Qed.

End ExpandVars.

(** C8 as stated fails: a play that ends with [vars_files] loses that key
    when all its files are given in [varInfiles], and then ends with
    [vars]. *)
Lemma expand_vars_files_drops_last_key :
  expand_vars_files (Y := Sample.yaml) (PList [Sample.play_with_vars_files])
    (py "playbook") Sample.context_with_var_infile
  = Ok (PList [PDict [(KStr (py "hosts"), PStr (py "all"));
                      (KStr (py "vars"), PDict [(KStr (py "a"), PInt 1)])]])
  /\ play_last_key Sample.play_with_vars_files = Some (KStr (py "vars_files"))
  /\ play_last_key (PDict [(KStr (py "hosts"), PStr (py "all"));
                           (KStr (py "vars"), PDict [(KStr (py "a"), PInt 1)])])
     = Some (KStr (py "vars")).
Proof. repeat split; vm_compute; reflexivity. Qed.

Lemma expand_vars_files_keeps_last_key_witness :
  exists plays',
    expand_vars_files (Y := Sample.yaml)
      (PList [Sample.play_with_tasks; SampleText.play_with_other_file])
      (py "playbook") Sample.context_with_var_infile = Ok (PList plays')
    /\ Forall2 (last_key_kept (var_infile_names Sample.context_with_var_infile))
         [Sample.play_with_tasks; SampleText.play_with_other_file] plays'
    /\ map play_last_key plays'
       = [Some (KStr (py "tasks")); Some vars_files_key].
Proof.
  edestruct (expand_vars_files_keeps_last_key (Y := Sample.yaml)
               [Sample.play_with_tasks; SampleText.play_with_other_file]
               Sample.context_with_var_infile)
    as (plays' & Hd & Hk).
  - vm_compute. reflexivity.
  - lazy. reflexivity.
  - exists plays'. injection Hd as <-.
    split; [lazy; reflexivity|]. split; [exact Hk|]. lazy. reflexivity.
Defined.

(** ** The matcher *)

Section Matcher.

Context {R : Type}.

Implicit Types (k : str -> captures -> option R).

Lemma match_here_chr fuel a s c k :
  match_here fuel (Chr a) s c k =
  match s with
  | x :: s' => if char_eqb x a then k s' c else None
  | [] => None
  end.
Proof. destruct fuel; reflexivity. Qed.

Lemma match_here_cls fuel p s c k :
  match_here fuel (Cls p) s c k =
  match s with
  | x :: s' => if p x then k s' c else None
  | [] => None
  end.
Proof. destruct fuel; reflexivity. Qed.

Lemma match_here_cat fuel r1 r2 s c k :
  match_here fuel (Cat r1 r2) s c k =
  match_here fuel r1 s c (fun s' c' => match_here fuel r2 s' c' k).
Proof. destruct fuel; reflexivity. Qed.

Lemma match_here_group fuel n r s c k :
  match_here fuel (Group n r) s c k =
  match_here fuel r s c (fun s' c' => k s' ((n, consumed s s') :: c')).
Proof. destruct fuel; reflexivity. Qed.

Lemma match_here_plus_0 r s c k :
  match_here 0 (Plus r) s c k = match_here 0 r s c k.
Proof. reflexivity. Qed.

Lemma match_here_plus_S f r s c k :
  match_here (S f) (Plus r) s c k =
  match_here (S f) r s c (fun s' c' =>
    if Nat.ltb (length s') (length s) then
      match match_here f (Plus r) s' c' k with
      | Some x => Some x
      | None => k s' c'
      end
    else k s' c').
Proof. reflexivity. Qed.

(** Soundness: a success reads a word of the pattern and then succeeds
    with the continuation. *)
Lemma match_here_sound fuel r :
  forall s c k x,
    match_here fuel r s c k = Some x ->
    exists w rest c', s = w ++ rest /\ lang r w /\ k rest c' = Some x.
Proof.
  revert r. induction fuel as [|f IHf]; induction r as [a|p|r IHr|r1 IH1 r2 IH2|n r IHr];
    intros s c k x H.
  1, 6: rewrite match_here_chr in H; destruct s as [|y s]; [discriminate|];
    destruct (char_eqb y a) eqn:E; [|discriminate];
    apply char_eqb_eq in E; subst y;
    exists [a], s, c; repeat split; [constructor | exact H].
  1, 5: rewrite match_here_cls in H; destruct s as [|y s]; [discriminate|];
    destruct (p y) eqn:E; [|discriminate];
    exists [y], s, c; repeat split; [now constructor | exact H].
  - rewrite match_here_plus_0 in H.
    destruct (IHr _ _ _ _ H) as (w & rest & c' & -> & Hw & Hk).
    exists w, rest, c'. repeat split; [now apply lang_plus_one | exact Hk].
  - rewrite match_here_cat in H.
    destruct (IH1 _ _ _ _ H) as (w1 & rest1 & c1 & -> & Hw1 & Hk1).
    destruct (IH2 _ _ _ _ Hk1) as (w2 & rest & c2 & -> & Hw2 & Hk2).
    exists (w1 ++ w2), rest, c2. rewrite app_assoc.
    repeat split; [now constructor | exact Hk2].
  - rewrite match_here_group in H.
    destruct (IHr _ _ _ _ H) as (w & rest & c' & -> & Hw & Hk).
    eexists w, rest, _. repeat split; [now constructor | exact Hk].
  - rewrite match_here_plus_S in H.
    destruct (IHr _ _ _ _ H) as (w1 & rest1 & c1 & -> & Hw1 & Hk1).
    destruct (Nat.ltb (length rest1) (length (w1 ++ rest1))).
    + destruct (match_here f (Plus r) rest1 c1 k) as [y|] eqn:Em.
      * injection Hk1 as ->.
        destruct (IHf _ _ _ _ _ Em) as (w2 & rest & c2 & -> & Hw2 & Hk2).
        exists (w1 ++ w2), rest, c2. rewrite app_assoc.
        repeat split; [now apply lang_plus_more | exact Hk2].
      * exists w1, rest1, c1. repeat split; [now apply lang_plus_one | exact Hk1].
    + exists w1, rest1, c1. repeat split; [now apply lang_plus_one | exact Hk1].
  - rewrite match_here_cat in H.
    destruct (IH1 _ _ _ _ H) as (w1 & rest1 & c1 & -> & Hw1 & Hk1).
    destruct (IH2 _ _ _ _ Hk1) as (w2 & rest & c2 & -> & Hw2 & Hk2).
    exists (w1 ++ w2), rest, c2. rewrite app_assoc.
    repeat split; [now constructor | exact Hk2].
  - rewrite match_here_group in H.
    destruct (IHr _ _ _ _ H) as (w & rest & c' & -> & Hw & Hk).
    eexists w, rest, _. repeat split; [now constructor | exact Hk].
Qed.

(** Completeness: when the input starts with a word of the pattern after
    which the continuation succeeds, the matcher succeeds. *)
Lemma match_here_complete r w :
  lang r w ->
  forall fuel rest c k,
    length (w ++ rest) <= fuel ->
    (forall c', exists x, k rest c' = Some x) ->
    exists x, match_here fuel r (w ++ rest) c k = Some x.
Proof.
  induction 1 as [a|p y Hp|r1 r2 w1 w2 _ IH1 _ IH2|n r w _ IH|r w _ IH
                  |r w1 w2 _ IH1 _ IH2]; intros fuel rest c k Hf Hk.
  - rewrite match_here_chr. simpl. unfold char_eqb. rewrite N.eqb_refl. apply Hk.
  - rewrite match_here_cls. simpl. rewrite Hp. apply Hk.
  - rewrite match_here_cat, <- app_assoc. apply IH1.
    + now rewrite app_assoc.
    + intros c'. apply IH2; [|exact Hk].
      rewrite <- app_assoc, length_app in Hf. lia.
  - rewrite match_here_group. apply IH; [exact Hf|]. intros c'. apply Hk.
  - destruct fuel as [|f].
    + rewrite match_here_plus_0. now apply IH.
    + rewrite match_here_plus_S. apply IH; [exact Hf|]. intros c'.
      destruct (Nat.ltb _ _); [|apply Hk].
      destruct (match_here f (Plus r) rest c' k) as [y|]; [now exists y | apply Hk].
  - destruct w1 as [|y w1]; [now apply IH2|].
    destruct fuel as [|f]; [simpl in Hf; lia|].
    rewrite match_here_plus_S, <- app_assoc. apply IH1.
    + now rewrite app_assoc.
    + intros c'.
      replace (Nat.ltb (length (w2 ++ rest)) (length ((y :: w1) ++ w2 ++ rest)))
        with true
        by (symmetry; apply Nat.ltb_lt; simpl; rewrite !length_app; lia).
      destruct (IH2 f rest c' k) as [x Hx]; [|exact Hk|].
      * rewrite <- app_assoc in Hf. simpl in Hf. rewrite !length_app in *. lia.
      * rewrite Hx. now exists x.
Qed.

End Matcher.

Lemma consumed_app (w rest : str) : consumed (w ++ rest) rest = w.
Proof.
  unfold consumed. rewrite length_app.
  replace (length w + length rest - length rest) with (length w) by lia.
  rewrite firstn_app, Nat.sub_diag, firstn_all. simpl. apply app_nil_r.
Qed.

(** [match_at] succeeds exactly when a word of the pattern starts the
    input, and reads such a word. *)
Lemma match_at_some (r : regex) (s : str) (item : match_obj) (rest : str) :
  match_at r s = Some (item, rest) ->
  s = m_text item ++ rest /\ lang r (m_text item).
Proof.
  unfold match_at. intros H.
  destruct (match_here_sound _ _ _ _ _ _ H) as (w & rest' & c' & -> & Hw & Hk).
  injection Hk as <- <-. cbn [m_text]. now rewrite consumed_app.
Qed.

Lemma match_at_none (r : regex) (s : str) :
  match_at r s = None -> forall w rest, s = w ++ rest -> ~ lang r w.
Proof.
  unfold match_at. intros H w rest -> Hw.
  destruct (match_here_complete r w Hw (length (w ++ rest)) rest []
              (fun rest0 c => Some ({| m_text := consumed (w ++ rest) rest0;
                                        m_groups := c |}, rest0)))
    as [x Hx]; [lia | intros c'; eexists; reflexivity |].
  rewrite Hx in H. discriminate.
Qed.

(** ** [finditer] *)

(** The first item of [finditer] is the leftmost match; there is no item
    when no position matches. *)
Lemma finditer_fuel_first (r : regex) :
  forall fuel s, length s < fuel ->
  match finditer_fuel fuel r s with
  | [] => forall pre suf, s = pre ++ suf -> match_at r suf = None
  | item :: _ =>
      exists pre rest,
        s = pre ++ m_text item ++ rest
        /\ match_at r (m_text item ++ rest) = Some (item, rest)
        /\ forall pre' suf', s = pre' ++ suf' -> length pre' < length pre ->
                             match_at r suf' = None
  end.
Proof.
  induction fuel as [|f IH]; intros s Hf; [lia|].
  cbn [finditer_fuel]. destruct (match_at r s) as [[item rest]|] eqn:Em.
  - assert (Hfirst : exists pre rest0,
      s = pre ++ m_text item ++ rest0
      /\ match_at r (m_text item ++ rest0) = Some (item, rest0)
      /\ forall pre' suf', s = pre' ++ suf' -> length pre' < length pre ->
                           match_at r suf' = None).
    { destruct (match_at_some _ _ _ _ Em) as [Hs _].
      exists [], rest. simpl. rewrite <- Hs. repeat split; auto.
      intros pre' suf' _ Hl. simpl in Hl. lia. }
    now destruct (Nat.ltb (length rest) (length s)).
  - destruct s as [|y s].
    + intros pre suf Hs. symmetry in Hs. apply app_eq_nil in Hs as [_ ->].
      exact Em.
    + specialize (IH s ltac:(simpl in Hf; lia)).
      destruct (finditer_fuel f r s) as [|item items].
      * intros [|x pre] suf Hs; simpl in Hs.
        -- now subst suf.
        -- injection Hs as _ Hs. exact (IH _ _ Hs).
      * destruct IH as (pre & rest & Hs & Hm & Hleft).
        exists (y :: pre), rest. simpl. rewrite <- Hs. repeat split; auto.
        intros [|x pre'] suf' Hs' Hl; simpl in Hs'.
        -- now subst suf'.
        -- injection Hs' as _ Hs'. apply (Hleft _ _ Hs'). simpl in Hl. lia.
Qed.

(** Every item of [finditer] is a match at some position. *)
Lemma finditer_fuel_in (r : regex) (item : match_obj) :
  forall fuel s,
    In item (finditer_fuel fuel r s) ->
    exists pre rest,
      s = pre ++ m_text item ++ rest
      /\ match_at r (m_text item ++ rest) = Some (item, rest).
Proof.
  induction fuel as [|f IH]; intros s Hin; [contradiction|].
  cbn [finditer_fuel] in Hin.
  assert (Htail : forall y s', s = y :: s' -> In item (finditer_fuel f r s') ->
                  exists pre rest, s = pre ++ m_text item ++ rest
                    /\ match_at r (m_text item ++ rest) = Some (item, rest)).
  { intros y s' -> Hin'. destruct (IH _ Hin') as (pre & rest & -> & Hm).
    now exists (y :: pre), rest. }
  destruct (match_at r s) as [[item0 rest0]|] eqn:Em.
  - destruct (match_at_some _ _ _ _ Em) as [Hs _].
    assert (Hhead : item0 = item ->
                    exists pre rest, s = pre ++ m_text item ++ rest
                      /\ match_at r (m_text item ++ rest) = Some (item, rest)).
    { intros <-. exists [], rest0. simpl. now rewrite <- Hs. }
    destruct (Nat.ltb (length rest0) (length s)).
    + destruct Hin as [E|Hin]; [now apply Hhead|].
      destruct (IH _ Hin) as (pre & rest & Hr & Hm).
      exists (m_text item0 ++ pre), rest. rewrite <- app_assoc, <- Hr. auto.
    + destruct Hin as [E|Hin]; [now apply Hhead|].
      destruct s as [|y s']; [contradiction|]. now apply (Htail y s').
  - destruct s as [|y s']; [contradiction|]. now apply (Htail y s').
Qed.

(** ** The two declaration patterns *)

Lemma lang_run (p : char -> bool) (w : str) :
  lang (Plus (Cls p)) w <-> is_run p w.
Proof.
  split.
  - intros H. remember (Plus (Cls p)) as r eqn:Er.
    induction H as [| | | |r w H _|r w1 w2 H1 _ _ IH2]; try discriminate;
      injection Er as ->.
    + inversion H as [|p' x Hx| | | |]; subst.
      split; [discriminate|]. simpl. now rewrite Hx.
    + inversion H1 as [|p' x Hx| | | |]; subst.
      destruct (IH2 eq_refl) as [_ Hw2].
      split; [discriminate|]. simpl. now rewrite Hx, Hw2.
  - intros [Hne Hall]. induction w as [|x w IH]; [congruence|].
    simpl in Hall. apply andb_true_iff in Hall as [Hx Hw].
    destruct w as [|y w].
    + apply lang_plus_one. now constructor.
    + apply (lang_plus_more (Cls p) [x] (y :: w)).
      * now constructor.
      * apply IH; [discriminate | exact Hw].
Qed.

Lemma lang_group_iff (n : nat) (r : regex) (w : str) :
  lang (Group n r) w <-> lang r w.
Proof. split; [now inversion 1 | now constructor]. Qed.

Lemma lang_chr_iff (a : char) (w : str) : lang (Chr a) w <-> w = [a].
Proof. split; [now inversion 1 | intros ->; constructor]. Qed.

Lemma lang_cat_iff (r1 r2 : regex) (w : str) :
  lang (Cat r1 r2) w <-> exists w1 w2, w = w1 ++ w2 /\ lang r1 w1 /\ lang r2 w2.
Proof.
  split.
  - inversion 1; subst. now exists w1, w2.
  - intros (w1 & w2 & -> & H1 & H2). now constructor.
Qed.

(** A pattern [(body):]: the text of a match is group 1 and the colon. *)
Lemma match_at_declaration (body : regex) (s : str) (item : match_obj)
    (rest : str) :
  match_at (Cat (Group 1 body) (Chr colon)) s = Some (item, rest) ->
  s = group item 1 ++ colon :: rest
  /\ lang body (group item 1)
  /\ m_text item = group item 1 ++ [colon].
Proof.
  unfold match_at. rewrite match_here_cat, match_here_group. intros H.
  destruct (match_here_sound _ _ _ _ _ _ H) as (w & rest1 & c' & Hs & Hw & Hk).
  rewrite match_here_chr in Hk. destruct rest1 as [|x rest1]; [discriminate|].
  destruct (char_eqb x colon) eqn:E; [|discriminate].
  apply char_eqb_eq in E. subst x. injection Hk as <- <-.
  unfold group. cbn [m_groups m_text lookup_group Nat.eqb].
  subst s. rewrite consumed_app.
  replace (w ++ colon :: rest1) with ((w ++ [colon]) ++ rest1)
    by now rewrite <- app_assoc.
  rewrite consumed_app. rewrite <- app_assoc. auto.
Qed.

Lemma match_at_declaration_complete (body : regex) (v rest : str) :
  lang body v ->
  match_at (Cat (Group 1 body) (Chr colon)) (v ++ colon :: rest) <> None.
Proof.
  intros Hv Hn.
  apply (match_at_none _ _ Hn (v ++ [colon]) rest).
  - now rewrite <- app_assoc.
  - constructor; [now constructor | constructor].
Qed.

Lemma lang_fqcn_body (v : str) : lang fqcn_body v <-> fqcn_value v.
Proof.
  unfold fqcn_body, fqcn_value. split.
  - intros H.
    apply lang_cat_iff in H as (a & w1 & -> & Ha & H).
    apply lang_cat_iff in H as (d1 & w2 & -> & Hd1 & H).
    apply lang_cat_iff in H as (b & w3 & -> & Hb & H).
    apply lang_cat_iff in H as (d2 & c & -> & Hd2 & Hc).
    apply lang_chr_iff in Hd1, Hd2. subst d1 d2.
    apply lang_group_iff, lang_run in Ha, Hb, Hc.
    now exists a, b, c.
  - intros (a & b & c & -> & Ha & Hb & Hc).
    apply lang_run, (lang_group_iff 2) in Ha.
    apply lang_run, (lang_group_iff 3) in Hb.
    apply lang_run, (lang_group_iff 4) in Hc.
    apply lang_cat_iff. exists a, (Extractor.dot :: b ++ Extractor.dot :: c).
    repeat split; [exact Ha|].
    apply lang_cat_iff. exists [Extractor.dot], (b ++ Extractor.dot :: c).
    repeat split; [constructor|].
    apply lang_cat_iff. exists b, (Extractor.dot :: c).
    repeat split; [exact Hb|].
    apply lang_cat_iff. exists [Extractor.dot], c.
    repeat split; [constructor | exact Hc].
Qed.

(** ** [get_fqcn_or_module_from_prediction] *)

Section ExtractorProps.

Import Extractor.

Variable Task_mro : list pyclass.

Lemma fqcn_pattern_shape :
  ansible_fqcn_declaration_pattern = Cat (Group 1 fqcn_body) (Chr colon).
Proof. reflexivity. Qed.

(** A match of a pattern [(body):] is a declaration in the prediction. *)
Lemma finditer_in_declared (body : regex) (prediction : str) (item : match_obj) :
  In item (finditer (Cat (Group 1 body) (Chr colon)) prediction) ->
  exists pre post, declared (lang body) prediction pre (group item 1) post.
Proof.
  intros Hin. destruct (finditer_fuel_in _ _ _ _ Hin) as (pre & rest & Hs & Hm).
  destruct (match_at_declaration _ _ _ _ Hm) as (Hs' & Hl & _).
  exists pre, rest. split; [|exact Hl]. now rewrite Hs, Hs'.
Qed.

(** The first match is the leftmost declaration, and there is a match as
    soon as there is a declaration. *)
Lemma finditer_first_declared (body : regex) (prediction : str) :
  match finditer (Cat (Group 1 body) (Chr colon)) prediction with
  | [] => forall pre v post, ~ declared (lang body) prediction pre v post
  | item :: _ =>
      exists pre post,
        declared (lang body) prediction pre (group item 1) post
        /\ forall pre' v' post',
             declared (lang body) prediction pre' v' post' ->
             length pre <= length pre'
  end.
Proof.
  pose proof (finditer_fuel_first (Cat (Group 1 body) (Chr colon))
                (S (length prediction)) prediction (Nat.lt_succ_diag_r _)) as H.
  fold (finditer (Cat (Group 1 body) (Chr colon)) prediction) in H.
  destruct (finditer _ prediction) as [|item items].
  - intros pre v post [Hs Hv].
    apply (match_at_declaration_complete body v post Hv). now apply (H pre).
  - destruct H as (pre & rest & Hs & Hm & Hleft).
    destruct (match_at_declaration _ _ _ _ Hm) as (Hs' & Hl & _).
    exists pre, rest. split; [split; [now rewrite Hs, Hs' | exact Hl]|].
    intros pre' v' post' [Hs2 Hv'].
    destruct (Nat.le_gt_cases (length pre) (length pre')) as [|Hlt]; [assumption|].
    exfalso. apply (match_at_declaration_complete body v' post' Hv').
    now apply (Hleft pre').
Qed.

Lemma keywords_cached (cache : option (list str)) :
  cache_ok Task_mro cache ->
  fst (get_ansible_task_keywords Task_mro cache) = task_keywords Task_mro
  /\ cache_ok Task_mro (snd (get_ansible_task_keywords Task_mro cache)).
Proof.
  unfold cache_ok, task_keywords. intros [-> | ->].
  - split; [reflexivity | now right].
  - cbn [get_ansible_task_keywords fst].
    destruct (_get_class_keywords (hd [] Task_mro)
              ++ flat_map _get_class_keywords Task_mro) as [|k ks] eqn:E.
    + split; [reflexivity | now right].
    + split; [reflexivity | now right].
Qed.

Lemma parse_items_keywords (items : list match_obj) :
  forall cache, cache_ok Task_mro cache ->
  fst (parse_items items (keyword_predicate Task_mro) cache)
  = find (fun v => negb (set_mem v (task_keywords Task_mro)))
         (map (fun item => group item 1) items).
Proof.
  induction items as [|item items IH]; intros cache Hc; [reflexivity|].
  cbn [parse_items map find]. unfold keyword_predicate at 1.
  destruct (keywords_cached cache Hc) as [Hk Hc'].
  destruct (get_ansible_task_keywords Task_mro cache) as [kw c'].
  cbn [fst snd] in Hk, Hc'. subst kw.
  destruct (set_mem (group item 1) (task_keywords Task_mro)); cbn [negb].
  - now apply IH.
  - reflexivity.
Qed.

Lemma parse_items_first (items : list match_obj) (cache : option (list str)) :
  fst (parse_items items (fun _ c => (false, c)) cache)
  = match items with
    | item :: _ => Some (group item 1)
    | [] => None
    end.
Proof. now destruct items. Qed.

Lemma get_fqcn_or_module_from_prediction_eq (prediction : str)
    (cache : option (list str)) :
  cache_ok Task_mro cache ->
  fst (get_fqcn_or_module_from_prediction Task_mro (Some prediction) cache)
  = match finditer ansible_fqcn_declaration_pattern prediction with
    | item :: _ => Some (group item 1)
    | [] =>
        find (fun v => negb (set_mem v (task_keywords Task_mro)))
             (map (fun item => group item 1)
                  (finditer ansible_module_declaration_pattern prediction))
    end.
Proof.
  intros Hc. unfold get_fqcn_or_module_from_prediction,
    _get_fqcn_from_prediction, _get_module_from_prediction,
    _parse_module_from_prediction.
  destruct (finditer ansible_fqcn_declaration_pattern prediction) as [|item items].
  - cbn [parse_items]. now apply parse_items_keywords.
  - reflexivity.
Qed.


End ExtractorProps.


(** ** [preprocess] for a single task *)

Lemma find_split_char_app (c : char) (b a : str) :
  ~ In c b -> find_split [c] (b ++ c :: a) = Some (b, a).
Proof.
  induction b as [|x b IH]; intros Hb; simpl app; rewrite find_split_char_cons.
  - unfold char_eqb. now rewrite N.eqb_refl.
  - destruct (char_eqb x c) eqn:E.
    + apply char_eqb_eq in E. subst x. exfalso. apply Hb. now left.
    + rewrite IH; [reflexivity|]. intros H. apply Hb. now right.
Qed.

Lemma find_split_char_absent (c : char) (s : str) :
  ~ In c s -> find_split [c] s = None.
Proof.
  induction s as [|x s IH]; intros Hs; [reflexivity|].
  rewrite find_split_char_cons. destruct (char_eqb x c) eqn:E.
  - apply char_eqb_eq in E. subst x. exfalso. apply Hs. now left.
  - rewrite IH; [reflexivity|]. intros H. apply Hs. now right.
Qed.

Lemma not_in_rev (c : char) (s : str) : ~ In c s -> ~ In c (rev s).
Proof. intros H Hin. apply H. now apply in_rev. Qed.

(** [rsplit("\n", 2)] cuts at the last two newlines. *)
Lemma rsplit_three (s0 s1 s2 : str) :
  ~ In nl s1 -> ~ In nl s2 ->
  rsplit_max 2 [nl] (s0 ++ nl :: s1 ++ nl :: s2) = [s0; s1; s2].
Proof.
  intros H1 H2. unfold rsplit_max.
  replace (rev (s0 ++ nl :: s1 ++ nl :: s2))
    with (rev s2 ++ nl :: (rev s1 ++ nl :: rev s0)).
  - cbn [rev app split_max].
    rewrite (find_split_char_app nl _ _ (not_in_rev _ _ H2)).
    rewrite (find_split_char_app nl _ _ (not_in_rev _ _ H1)).
    cbn [map rev app]. now rewrite !rev_involutive.
  - rewrite rev_app_distr. cbn [rev]. rewrite rev_app_distr. cbn [rev].
    now rewrite <- !app_assoc.
Qed.

Lemma rsplit_two (s0 s1 : str) :
  ~ In nl s0 -> ~ In nl s1 ->
  rsplit_max 2 [nl] (s0 ++ nl :: s1) = [s0; s1].
Proof.
  intros H0 H1. unfold rsplit_max.
  replace (rev (s0 ++ nl :: s1)) with (rev s1 ++ nl :: rev s0).
  - cbn [rev app split_max].
    rewrite (find_split_char_app nl _ _ (not_in_rev _ _ H1)).
    rewrite (find_split_char_absent nl _ (not_in_rev _ _ H0)).
    cbn [map rev app]. now rewrite !rev_involutive.
  - rewrite rev_app_distr. cbn [rev]. now rewrite <- !app_assoc.
Qed.

(** The first occurrence is the one [find_split] cuts at. *)
Lemma find_split_first_occurrence (sep s before after : str) :
  first_occurrence sep s before after ->
  find_split sep s = Some (before, after).
Proof.
  intros [Hs Hfirst].
  destruct (find_split sep s) as [[b a]|] eqn:E.
  - pose proof (find_split_some _ _ _ _ E) as Hs'.
    pose proof (find_split_first _ _ _ _ E _ _ Hs) as H1.
    pose proof (Hfirst _ _ Hs') as H2.
    assert (Hb : b = before).
    { rewrite Hs in Hs'.
      apply (f_equal (firstn (length b))) in Hs'.
      rewrite !firstn_app in Hs'.
      rewrite firstn_all2 in Hs' by lia.
      replace (length b - length before) with 0 in Hs' by lia.
      rewrite Nat.sub_diag in Hs'. simpl in Hs'.
      rewrite firstn_all, !app_nil_r in Hs'. congruence. }
    subst b. rewrite Hs in Hs'. apply app_inv_head in Hs'.
    apply app_inv_head in Hs'. congruence.
  - exfalso. exact (find_split_none _ _ E _ _ Hs).
Qed.

Lemma ws_runs_cons_space (c : char) (s : str) (ws : list str) :
  isspace c = true -> ws_runs s ws -> ws_runs (c :: s) ws.
Proof.
  intros Hc H. destruct H as [gap Hg|gap w rest ws Hg Hne Hw Hr Hrest].
  - apply ws_runs_end. simpl. now rewrite Hc.
  - apply (ws_runs_word (c :: gap) w rest ws); auto. simpl. now rewrite Hc.
Qed.

Lemma words_acc_runs (s : str) :
  forall w, forallb non_space w = true ->
  match w with
  | [] => ws_runs s (words_acc [] s)
  | _ =>
      exists w2 rest ws,
        s = w2 ++ rest /\ forallb non_space w2 = true
        /\ (rest = [] \/ exists c rest', rest = c :: rest' /\ isspace c = true)
        /\ ws_runs rest ws
        /\ words_acc w s = (rev w ++ w2) :: ws
  end.
Proof.
  induction s as [|c s IH]; intros w Hw.
  - destruct w as [|x w].
    + now apply ws_runs_end.
    + exists [], [], []. split; [reflexivity|]. split; [reflexivity|].
      split; [now left|]. split; [now apply ws_runs_end|].
      cbn [words_acc]. now rewrite app_nil_r.
  - cbn [words_acc]. destruct (isspace c) eqn:Ec.
    + pose proof (IH [] eq_refl) as IH0. cbn beta iota in IH0.
      destruct w as [|x w].
      * now apply ws_runs_cons_space.
      * exists [], (c :: s), (words_acc [] s).
        split; [reflexivity|]. split; [reflexivity|].
        split; [right; now exists c, s|].
        split; [now apply ws_runs_cons_space|].
        now rewrite app_nil_r.
    + assert (Hcw : forallb non_space (c :: w) = true).
      { simpl. unfold non_space at 1. now rewrite Ec. }
      destruct (IH (c :: w) Hcw) as (w2 & rest & ws & -> & Hw2 & Hr & Hrest & Hacc).
      destruct w as [|x w].
      * rewrite Hacc. cbn [rev app].
        apply (ws_runs_word [] (c :: w2) rest ws); auto; [discriminate|].
        simpl. unfold non_space at 1. now rewrite Ec.
      * exists (c :: w2), rest, ws.
        split; [reflexivity|].
        split; [simpl; unfold non_space at 1; now rewrite Ec|].
        split; [exact Hr|]. split; [exact Hrest|].
        rewrite Hacc. cbn [rev]. now rewrite <- !app_assoc.
Qed.

Lemma split_ws_runs (s : str) : ws_runs s (split_ws s).
Proof. exact (words_acc_runs s [] eq_refl). Qed.

Lemma handle_spaces_handled (raw : str) : spaces_handled raw (handle_spaces raw).
Proof.
  unfold spaces_handled, handle_spaces, partition. split.
  - intros before after Hfirst. fold name_marker.
    rewrite (find_split_first_occurrence _ _ _ _ Hfirst).
    exists (split_ws after). split; [apply split_ws_runs | reflexivity].
  - intros Hno. fold name_marker.
    destruct (find_split name_marker raw) as [[b a]|] eqn:E.
    + exfalso. exact (Hno _ _ (find_split_some _ _ _ _ E)).
    + cbn [split_ws words_acc join]. now rewrite !app_nil_r.
Qed.

Section PreprocessSingle.

Context {Y : YamlLib}.

(** C3 (amended): for a single-task prompt whose text normalizes to
    [formatted], [preprocess] cuts [formatted] at its last two newlines:
    with three segments the context is the first one and a newline and the
    prompt comes from the second one; with two segments the context is
    empty and the prompt comes from the first one.  In the returned prompt
    the text up to and including the first [- name: ] is as in the segment,
    and the remainder is made of its words separated by single spaces: a
    run of whitespace between two words becomes one space, and the
    whitespace at the two ends of the remainder is removed. *)
Theorem preprocess_single_task
    (context prompt ansible_file_type : str) (additional_context : pyval)
    (formatted : str) :
  is_multi_task_prompt prompt = false ->
  normalize_yaml (context ++ [nl] ++ prompt) ansible_file_type additional_context
  = Ok (Some formatted) ->
  (forall seg0 seg1 seg2,
     formatted = seg0 ++ nl :: seg1 ++ nl :: seg2 ->
     ~ In nl seg1 -> ~ In nl seg2 ->
     exists prompt',
       preprocess context prompt ansible_file_type additional_context
       = Ok (seg0 ++ [nl], prompt')
       /\ spaces_handled seg1 prompt')
  /\ (forall seg0 seg1,
        formatted = seg0 ++ nl :: seg1 ->
        ~ In nl seg0 -> ~ In nl seg1 ->
        exists prompt',
          preprocess context prompt ansible_file_type additional_context
          = Ok ([], prompt')
          /\ spaces_handled seg0 prompt').
Proof.
  intros Hsingle Hnorm. unfold preprocess. rewrite Hnorm, Hsingle. cbn [bind].
  split.
  - intros seg0 seg1 seg2 -> H1 H2. rewrite (rsplit_three _ _ _ H1 H2).
    exists (handle_spaces seg1). split; [reflexivity | apply handle_spaces_handled].
  - intros seg0 seg1 -> H0 H1. rewrite (rsplit_two _ _ H0 H1).
    exists (handle_spaces seg0). split; [reflexivity | apply handle_spaces_handled].
Qed.

End PreprocessSingle.

Lemma preprocess_single_task_witness :
  preprocess (Y := Sample.yaml)
    (Sample.lines ["- hosts: all"%string; "  tasks:"%string])
    (py "    - name:  install   nginx") (py "playbook") PNone
  = Ok (Sample.lines ["- hosts: all"%string; "  tasks:"%string],
        py "    - name: install nginx")
  /\ spaces_handled (py "    - name: install   nginx")
                    (py "    - name: install nginx").
Proof.
  destruct (preprocess_single_task (Y := Sample.yaml)
              (Sample.lines ["- hosts: all"%string; "  tasks:"%string])
              (py "    - name:  install   nginx") (py "playbook") PNone
              (Sample.lines ["- hosts: all"%string; "  tasks:"%string;
                             "    - name: install   nginx"%string]))
    as [H3 _].
  - vm_compute. reflexivity.
  - vm_compute. reflexivity.
  - destruct (H3 (py "- hosts: all" ++ [nl] ++ py "  tasks:")
                 (py "    - name: install   nginx") [])
      as (prompt' & Hp & Hh).
    + vm_compute. reflexivity.
    + vm_compute. intuition discriminate.
    + intros [].
    + assert (Hv : preprocess (Y := Sample.yaml)
                     (Sample.lines ["- hosts: all"%string; "  tasks:"%string])
                     (py "    - name:  install   nginx") (py "playbook") PNone
                   = Ok (Sample.lines ["- hosts: all"%string; "  tasks:"%string],
                         py "    - name: install nginx"))
        by (vm_compute; reflexivity).
      split; [exact Hv|].
      rewrite Hv in Hp. injection Hp as Hp. rewrite Hp. exact Hh.
Defined.

(** C3 as stated fails: the whitespace at the two ends of the remainder is
    removed, not collapsed to a space.  For the prompt [- name: ] followed
    by [U+00A0], [a  b] and [U+3000] the returned prompt is [- name: a b],
    where collapsing every run gives [- name:  a b ] with a space at each
    end of the name. *)
Lemma preprocess_single_task_trims_remainder :
  is_multi_task_prompt SampleText.padded_task_line = false
  /\ normalize_yaml (Y := SampleText.yaml_padded)
       ([] ++ [nl] ++ SampleText.padded_task_line) (py "playbook") PNone
     = Ok (Some (SampleText.padded_task_line ++ [nl]))
  /\ preprocess (Y := SampleText.yaml_padded)
       [] SampleText.padded_task_line (py "playbook") PNone
     = Ok ([], py "- name: a b")
  /\ py "- name: " ++ collapse_runs SampleText.padded_name = py "- name:  a b "
  /\ py "- name: a b" <> py "- name: " ++ collapse_runs SampleText.padded_name.
Proof.
  repeat split; try (vm_compute; reflexivity).
  vm_compute. discriminate.
Qed.

(** ** [normalize_yaml] and the round trip of the library *)

Section Normalize.

Context {Y : YamlLib}.

(** Without additional context, [normalize_yaml] dumps what it loads: a
    text is a fixed point exactly when dumping its object gives it back. *)
Lemma normalize_yaml_fixed_point (x ansible_file_type : str) (d : pyval) :
  yaml_load x = Ok d -> d <> PNone ->
  (normalize_yaml x ansible_file_type PNone = Ok (Some x) <-> yaml_dump d = x).
Proof.
  intros Hl Hd. unfold normalize_yaml. rewrite Hl. cbn [bind truthy].
  destruct d; try congruence; cbn [bind]; split; congruence.
Qed.

End Normalize.

(* ================================================================== *)
(** * Further properties of the formatter *)
(* ================================================================== *)

(** ** [unify_prompt_ending]: what the endpoint is promised *)

(** X1: the result always ends with a newline, and the character before
    that newline, if there is one, is neither a colon nor whitespace. *)
Theorem unify_prompt_ending_shape (prompt : str) :
  exists body,
    unify_prompt_ending prompt = body ++ [nl]
    /\ (body = [] \/ exists b c, body = b ++ [c] /\ trimmable c = false).
Proof.
  rewrite unify_prompt_ending_char.
  destruct (Nat.leb (length (retained prompt)) 1).
  - exists []. split; [reflexivity | now left].
  - exists (retained prompt). split; [reflexivity|].
    destruct (retained_split prompt) as (_ & _ & _ & H). exact H.
Qed.

Lemma retained_newline (r : str) :
  (r = [] \/ exists b c, r = b ++ [c] /\ trimmable c = false) ->
  retained (r ++ [nl]) = r.
Proof.
  unfold retained. rewrite rev_app_distr. cbn [rev app drop_while].
  replace (trimmable nl) with true by reflexivity.
  intros [-> | (b & c & -> & Hc)]; [reflexivity|].
  rewrite rev_app_distr. cbn [rev app drop_while]. rewrite Hc.
  change (c :: rev b) with (rev [c] ++ rev b).
  now rewrite <- rev_app_distr, rev_involutive.
Qed.

(** X2: unifying twice is unifying once. *)
Theorem unify_prompt_ending_idempotent (prompt : str) :
  unify_prompt_ending (unify_prompt_ending prompt) = unify_prompt_ending prompt.
Proof.
  rewrite (unify_prompt_ending_char prompt).
  destruct (Nat.leb (length (retained prompt)) 1) eqn:E; [reflexivity|].
  rewrite unify_prompt_ending_char.
  destruct (retained_split prompt) as (_ & _ & _ & H).
  rewrite (retained_newline _ H). now rewrite E.
Qed.

(** ** [extract_prompt_and_context] *)

Import FormatterText.

(** A text has no newline, or a last one. *)
Lemma last_newline (s : str) :
  ~ In nl s \/ exists s0 s1, s = s0 ++ nl :: s1 /\ ~ In nl s1.
Proof.
  induction s as [|c s IH].
  - left. intros [].
  - destruct IH as [Hno | (s0 & s1 & -> & H1)].
    + destruct (N.eq_dec c nl) as [-> | Hc].
      * right. now exists [], s.
      * left. intros [H | H]; auto.
    + right. now exists (c :: s0), s1.
Qed.

Lemma rsplit_one_cut (s0 s1 : str) :
  ~ In nl s1 -> rsplit_max 1 [nl] (s0 ++ nl :: s1) = [s0; s1].
Proof.
  intros H1. unfold rsplit_max.
  replace (rev (s0 ++ nl :: s1)) with (rev s1 ++ nl :: rev s0).
  - cbn [rev app split_max].
    rewrite (find_split_char_app nl _ _ (not_in_rev _ _ H1)).
    cbn [map rev app]. now rewrite !rev_involutive.
  - rewrite rev_app_distr. cbn [rev]. now rewrite <- !app_assoc.
Qed.

Lemma rsplit_one_none (s : str) :
  ~ In nl s -> rsplit_max 1 [nl] s = [s].
Proof.
  intros H. unfold rsplit_max. cbn [rev app split_max].
  rewrite (find_split_char_absent nl _ (not_in_rev _ _ H)).
  cbn [map rev app]. now rewrite rev_involutive.
Qed.

(** X3: for a non-empty input the prompt is the last line of the
    right-trimmed input and the context is all that precedes it, each
    closed by a newline: the prompt holds no other newline, the context is
    empty or ends with one, and context followed by prompt is the trimmed
    input and a newline.  The empty input gives two empty strings. *)
Theorem extract_prompt_and_context_split (input : str) :
  (input <> [] ->
   exists line,
     fst (extract_prompt_and_context input) = line ++ [nl]
     /\ ~ In nl line
     /\ (snd (extract_prompt_and_context input) = []
         \/ exists c, snd (extract_prompt_and_context input) = c ++ [nl])
     /\ snd (extract_prompt_and_context input)
        ++ fst (extract_prompt_and_context input)
        = rstrip input ++ [nl])
  /\ (input = [] -> extract_prompt_and_context input = ([], [])).
Proof.
  split; [|now intros ->].
  intros Hne. unfold extract_prompt_and_context.
  destruct input as [|x input]; [congruence|]. cbn [nonempty].
  destruct (last_newline (rstrip (x :: input))) as [Hno | (s0 & s1 & Hs & H1)].
  - rewrite (rsplit_one_none _ Hno). cbn [nth fst snd].
    exists (rstrip (x :: input)). repeat split; auto.
  - rewrite Hs, (rsplit_one_cut _ _ H1). cbn [fst snd].
    exists s1. repeat split; auto.
    + right. now exists s0.
    + now rewrite <- !app_assoc.
Qed.

Lemma extract_prompt_and_context_split_witness :
  exists line,
    fst (extract_prompt_and_context
           (py "- hosts: all" ++ [nl] ++ py "  - name: foo  ")) = line ++ [nl]
    /\ ~ In nl line
    /\ (snd (extract_prompt_and_context
               (py "- hosts: all" ++ [nl] ++ py "  - name: foo  ")) = []
        \/ exists c,
             snd (extract_prompt_and_context
                    (py "- hosts: all" ++ [nl] ++ py "  - name: foo  "))
             = c ++ [nl])
    /\ snd (extract_prompt_and_context
              (py "- hosts: all" ++ [nl] ++ py "  - name: foo  "))
       ++ fst (extract_prompt_and_context
                 (py "- hosts: all" ++ [nl] ++ py "  - name: foo  "))
       = rstrip (py "- hosts: all" ++ [nl] ++ py "  - name: foo  ") ++ [nl].
Proof.
  apply (proj1 (extract_prompt_and_context_split
                  (py "- hosts: all" ++ [nl] ++ py "  - name: foo  "))).
  discriminate.
Defined.

(** ** [handle_spaces] applied twice *)

Lemma words_acc_word (w : str) :
  forallb non_space w = true ->
  forall acc rest, words_acc acc (w ++ rest) = words_acc (rev w ++ acc) rest.
Proof.
  induction w as [|c w IH]; intros Hw acc rest; [reflexivity|].
  cbn [forallb] in Hw. apply andb_true_iff in Hw as [Hc Hw].
  unfold non_space in Hc. apply negb_true_iff in Hc.
  cbn [app words_acc]. rewrite Hc, (IH Hw). cbn [rev].
  now rewrite <- app_assoc.
Qed.

Lemma split_ws_join (ws : list str) :
  Forall is_word ws -> split_ws (join [space] ws) = ws.
Proof.
  unfold split_ws. induction 1 as [|w ws [Hne Hw] Hws IH]; [reflexivity|].
  destruct ws as [|w2 ws].
  - cbn [join]. rewrite <- (app_nil_r w) at 1.
    rewrite (words_acc_word w Hw). cbn [words_acc]. rewrite app_nil_r.
    destruct (rev w) eqn:E.
    + apply (f_equal (@rev char)) in E. rewrite rev_involutive in E.
      simpl in E. congruence.
    + now rewrite <- E, rev_involutive.
  - change (join [space] (w :: w2 :: ws))
      with (w ++ space :: join [space] (w2 :: ws)).
    rewrite (words_acc_word w Hw). cbn [words_acc].
    replace (isspace space) with true by reflexivity.
    rewrite app_nil_r, IH.
    destruct (rev w) eqn:E.
    + apply (f_equal (@rev char)) in E. rewrite rev_involutive in E.
      simpl in E. congruence.
    + now rewrite <- E, rev_involutive.
Qed.

Lemma ws_runs_words (s : str) (ws : list str) :
  ws_runs s ws -> Forall is_word ws.
Proof.
  induction 1; constructor; auto. now split.
Qed.

(** The first occurrence of [sep] stays the first one when the text after
    it is replaced. *)
Lemma first_occurrence_replace_after (sep s b a t : str) :
  find_split sep s = Some (b, a) ->
  find_split sep (b ++ sep ++ t) = Some (b, t).
Proof.
  intros E. apply find_split_first_occurrence. split; [reflexivity|].
  intros b' a' Heq.
  destruct (Nat.le_gt_cases (length b) (length b')) as [|Hlt]; [assumption|].
  exfalso.
  pose proof (find_split_some _ _ _ _ E) as Hs.
  assert (Hpre : firstn (length b' + length sep) (b ++ sep) = b' ++ sep).
  { set (n := length b' + length sep).
    assert (H1 : firstn n ((b ++ sep) ++ t) = firstn n (b ++ sep)).
    { rewrite firstn_app.
      replace (n - length (b ++ sep)) with 0
        by (unfold n; rewrite length_app; lia).
      cbn [firstn]. apply app_nil_r. }
    assert (H2 : firstn n ((b' ++ sep) ++ a') = b' ++ sep).
    { rewrite firstn_app.
      replace (n - length (b' ++ sep)) with 0
        by (unfold n; rewrite length_app; lia).
      rewrite firstn_all2 by (unfold n; rewrite length_app; lia).
      cbn [firstn]. apply app_nil_r. }
    rewrite <- H1, <- H2, <- !app_assoc. now rewrite Heq. }
  assert (Hs' : s = b' ++ sep
                   ++ (skipn (length b' + length sep) (b ++ sep) ++ a)).
  { rewrite Hs, app_assoc.
    rewrite <- (firstn_skipn (length b' + length sep) (b ++ sep)) at 1.
    rewrite Hpre. now rewrite <- !app_assoc. }
  pose proof (find_split_first _ _ _ _ E _ _ Hs'). lia.
Qed.

(** X4: [handle_spaces] is idempotent. *)
Theorem handle_spaces_idempotent (prompt : str) :
  handle_spaces (handle_spaces prompt) = handle_spaces prompt.
Proof.
  unfold handle_spaces at 2 3. unfold partition.
  destruct (find_split (py "- name: ") prompt) as [[b a]|] eqn:E.
  - unfold handle_spaces, partition.
    change (py " ") with [space].
    rewrite (first_occurrence_replace_after _ _ _ _ _ E).
    rewrite (split_ws_join _ (ws_runs_words _ _ (split_ws_runs a))).
    reflexivity.
  - cbn [split_ws words_acc join]. rewrite !app_nil_r.
    unfold handle_spaces, partition. rewrite E.
    cbn [split_ws words_acc join]. now rewrite !app_nil_r.
Qed.

(** ** The pair [preprocess] returns for a single task *)

Lemma join_words_chars (ws : list str) (c : char) :
  Forall is_word ws -> In c (join [space] ws) -> c = space \/ isspace c = false.
Proof.
  induction 1 as [|w ws [_ Hw] _ IH]; [intros []|].
  assert (Hword : In c w -> isspace c = false).
  { intros Hin. rewrite forallb_forall in Hw. specialize (Hw c Hin).
    unfold non_space in Hw. now apply negb_true_iff in Hw. }
  destruct ws as [|w2 ws]; cbn [join].
  - intros Hin. right. now apply Hword.
  - intros Hin. apply in_app_or in Hin as [Hin | [Hin | Hin]].
    + right. now apply Hword.
    + now left.
    + now apply IH.
Qed.

Lemma handle_spaces_no_newline (s : str) :
  ~ In nl s -> ~ In nl (handle_spaces s).
Proof.
  intros Hs. unfold handle_spaces, partition.
  destruct (find_split (py "- name: ") s) as [[b a]|] eqn:E.
  - pose proof (find_split_some _ _ _ _ E) as Heq.
    change (py " ") with [space]. intros Hin.
    apply in_app_or in Hin as [Hin | Hin].
    + apply Hs. rewrite Heq. apply in_or_app. now left.
    + apply in_app_or in Hin as [Hin | Hin].
      * vm_compute in Hin. intuition discriminate.
      * destruct (join_words_chars _ nl
                    (ws_runs_words _ _ (split_ws_runs a)) Hin); discriminate.
  - cbn [split_ws words_acc join]. now rewrite !app_nil_r.
Qed.

Section PreprocessShape.

Context {Y : YamlLib}.

(** X5: for a single-task prompt whose normalized text holds a newline,
    the returned context is empty or ends with a newline, and the returned
    prompt is one line: it holds no newline. *)
Theorem preprocess_single_task_shape
    (context prompt ansible_file_type : str) (additional_context : pyval)
    (formatted : str) :
  is_multi_task_prompt prompt = false ->
  normalize_yaml (context ++ [nl] ++ prompt) ansible_file_type additional_context
  = Ok (Some formatted) ->
  In nl formatted ->
  exists context' prompt',
    preprocess context prompt ansible_file_type additional_context
    = Ok (context', prompt')
    /\ (context' = [] \/ exists c, context' = c ++ [nl])
    /\ ~ In nl prompt'.
Proof.
  intros Hsingle Hnorm Hin. unfold preprocess. rewrite Hnorm, Hsingle.
  cbn [bind].
  destruct (last_newline formatted) as [Hno | (a & s2 & -> & H2)];
    [contradiction|].
  destruct (last_newline a) as [Hno | (s0 & s1 & -> & H1)].
  - rewrite (rsplit_two _ _ Hno H2).
    exists [], (handle_spaces a). repeat split; auto.
    now apply handle_spaces_no_newline.
  - replace ((s0 ++ nl :: s1) ++ nl :: s2) with (s0 ++ nl :: s1 ++ nl :: s2)
      by now rewrite <- app_assoc.
    rewrite (rsplit_three _ _ _ H1 H2).
    exists (s0 ++ [nl]), (handle_spaces s1). repeat split.
    + right. now exists s0.
    + now apply handle_spaces_no_newline.
Qed.

End PreprocessShape.

Lemma preprocess_single_task_shape_witness :
  exists context' prompt',
    preprocess (Y := Sample.yaml)
      (Sample.lines ["- hosts: all"%string; "  tasks:"%string])
      (py "    - name:  install   nginx") (py "playbook") PNone
    = Ok (context', prompt')
    /\ (context' = [] \/ exists c, context' = c ++ [nl])
    /\ ~ In nl prompt'.
Proof.
  apply (preprocess_single_task_shape (Y := Sample.yaml)
           (Sample.lines ["- hosts: all"%string; "  tasks:"%string])
           (py "    - name:  install   nginx") (py "playbook") PNone
           (Sample.lines ["- hosts: all"%string; "  tasks:"%string;
                          "    - name: install   nginx"%string])).
  - vm_compute. reflexivity.
  - vm_compute. reflexivity.
  - vm_compute. tauto.
Defined.

(** ** Task names of a prompt *)

Lemma lstrip_split (s : str) :
  exists ws, s = ws ++ lstrip s /\ forallb isspace ws = true.
Proof.
  induction s as [|c s (ws & Hs & Hws)]; [now exists []|].
  cbn [lstrip]. destruct (isspace c) eqn:E.
  - exists (c :: ws). cbn [app forallb]. rewrite E, Hws.
    split; [now f_equal | reflexivity].
  - now exists [].
Qed.

Lemma lstrip_starts (s : str) : starts_non_space (lstrip s).
Proof.
  induction s as [|c s IH]; [exact I|]. cbn [lstrip].
  destruct (isspace c) eqn:E; [exact IH | exact E].
Qed.

Lemma lstrip_fix (t : str) : starts_non_space t -> lstrip t = t.
Proof. destruct t as [|c t]; [reflexivity|]. cbn. now intros ->. Qed.

Lemma lstrip_app_ws (ws t : str) :
  forallb isspace ws = true -> lstrip (ws ++ t) = lstrip t.
Proof.
  induction ws as [|c ws IH]; [reflexivity|]. cbn [forallb app lstrip].
  intros H. apply andb_true_iff in H as [-> H]. now apply IH.
Qed.

Lemma lstrip_snoc (x : str) (c : char) :
  isspace c = false -> lstrip (x ++ [c]) = lstrip x ++ [c].
Proof.
  intros Hc. induction x as [|d x IH]; cbn [app lstrip].
  - now rewrite Hc.
  - now destruct (isspace d).
Qed.

Lemma rstrip_starts (t : str) : starts_non_space t -> starts_non_space (rstrip t).
Proof.
  destruct t as [|c t]; [intros _; exact I|]. cbn [starts_non_space].
  intros Hc. unfold rstrip. cbn [rev]. rewrite (lstrip_snoc _ _ Hc).
  rewrite rev_app_distr. exact Hc.
Qed.

Lemma strip_idempotent (s : str) : strip (strip s) = strip s.
Proof.
  unfold strip.
  rewrite (lstrip_fix _ (rstrip_starts _ (lstrip_starts s))).
  unfold rstrip at 1. unfold rstrip at 1. rewrite rev_involutive.
  now rewrite (lstrip_fix _ (lstrip_starts _)).
Qed.

Lemma count_char_app (c : char) (a b : str) :
  count_char c (a ++ b) = count_char c a + count_char c b.
Proof. induction a as [|x a IH]; simpl; [reflexivity|]. rewrite IH. lia. Qed.

Lemma count_char_rev (c : char) (s : str) :
  count_char c (rev s) = count_char c s.
Proof.
  induction s as [|x s IH]; [reflexivity|]. cbn [rev].
  rewrite count_char_app, IH. simpl. lia.
Qed.

Lemma count_char_ws (c : char) (ws : str) :
  isspace c = false -> forallb isspace ws = true -> count_char c ws = 0.
Proof.
  intros Hc. induction ws as [|x ws IH]; [reflexivity|]. cbn [forallb count_char].
  intros H. apply andb_true_iff in H as [Hx Hws]. rewrite (IH Hws).
  destruct (char_eqb x c) eqn:E; [|reflexivity].
  apply char_eqb_eq in E. congruence.
Qed.

Lemma count_char_lstrip (c : char) (s : str) :
  isspace c = false -> count_char c (lstrip s) = count_char c s.
Proof.
  intros Hc. destruct (lstrip_split s) as (ws & Hs & Hws).
  rewrite Hs at 2. now rewrite count_char_app, (count_char_ws c ws Hc Hws).
Qed.

Lemma count_char_strip (c : char) (s : str) :
  isspace c = false -> count_char c (strip s) = count_char c s.
Proof.
  intros Hc. unfold strip, rstrip.
  now rewrite count_char_rev, count_char_lstrip, count_char_rev,
    count_char_lstrip.
Qed.

(** A multi-task prompt is whitespace, a [#], and the rest. *)
Lemma multi_task_prompt_split (prompt : str) :
  is_multi_task_prompt prompt = true ->
  exists indent rest,
    prompt = indent ++ hash :: rest
    /\ forallb isspace indent = true
    /\ split_max 1 (py "#") prompt = [indent; rest].
Proof.
  unfold is_multi_task_prompt. destruct (nonempty prompt); [|discriminate].
  intros H. apply startswith_inv in H. cbn [app length skipn] in H.
  destruct (lstrip_split prompt) as (ws & Hs & Hws).
  destruct (lstrip prompt) as [|c rest]; [discriminate|].
  injection H as Hc. change (c = hash) in Hc. subst c.
  exists ws, rest. split; [exact Hs|]. split; [exact Hws|].
  rewrite Hs. cbn [split_max]. change (py "#") with [hash].
  rewrite find_split_char_app; [reflexivity|].
  intros Hin. rewrite forallb_forall in Hws. specialize (Hws _ Hin).
  discriminate.
Qed.

(** X6: a multi-task prompt yields as many task names as
    [get_task_count_from_prompt] counts tasks. *)
Theorem task_names_count (prompt : str) :
  is_multi_task_prompt prompt = true ->
  length (get_task_names_from_prompt prompt) = get_task_count_from_prompt prompt.
Proof.
  intros Hm. unfold get_task_names_from_prompt, get_task_count_from_prompt.
  rewrite Hm.
  destruct (multi_task_prompt_split prompt Hm) as (indent & rest & Hp & Hws & ->).
  assert (Hne : nonempty prompt = true) by (rewrite Hp; now destruct indent).
  rewrite Hne. cbn [nth]. rewrite !length_map.
  change (py "&") with [ampersand]. rewrite !split_char_length.
  rewrite !count_char_strip by reflexivity.
  rewrite Hp, count_char_app, (count_char_ws ampersand indent eq_refl Hws).
  reflexivity.
Qed.

Lemma task_names_count_witness :
  length (get_task_names_from_prompt (py "  # install nginx & start it & open port"))
  = get_task_count_from_prompt (py "  # install nginx & start it & open port").
Proof. apply task_names_count. vm_compute. reflexivity. Defined.

(** X7: every task name taken from a prompt is trimmed: it has no
    whitespace at either end. *)
Theorem task_names_trimmed (prompt : str) :
  Forall (fun name => strip name = name) (get_task_names_from_prompt prompt).
Proof.
  unfold get_task_names_from_prompt.
  destruct (is_multi_task_prompt prompt).
  - apply Forall_forall. intros name Hin.
    apply in_map_iff in Hin as (t & <- & Hin).
    apply in_map_iff in Hin as (x & <- & _).
    destruct (startswith _ _); apply strip_idempotent.
  - constructor; [apply strip_idempotent | constructor].
Qed.

(** ** [strip_task_preamble_from_multi_task_prompt] *)

Section Preamble.

Variable lower : str -> str.

(** X8: stripping the preamble leaves a prompt that is not multi-task as
    it is, and turns a multi-task prompt into its indentation, [# ] and the
    lowercased task names joined by [ & ]: the result is a multi-task
    prompt again. *)
Theorem strip_task_preamble_keeps_kind (prompt : str) :
  is_multi_task_prompt (strip_task_preamble_from_multi_task_prompt lower prompt)
  = is_multi_task_prompt prompt
  /\ (is_multi_task_prompt prompt = false ->
      strip_task_preamble_from_multi_task_prompt lower prompt = prompt)
  /\ (is_multi_task_prompt prompt = true ->
      exists indent rest,
        prompt = indent ++ hash :: rest
        /\ forallb isspace indent = true
        /\ strip_task_preamble_from_multi_task_prompt lower prompt
           = indent ++ py "# "
             ++ join (py " & ") (map lower (get_task_names_from_prompt prompt))).
Proof.
  unfold strip_task_preamble_from_multi_task_prompt.
  destruct (is_multi_task_prompt prompt) eqn:Hm.
  - destruct (multi_task_prompt_split prompt Hm) as (indent & rest & Hp & Hws & ->).
    cbn [nth]. split; [|split; [discriminate|]].
    + unfold is_multi_task_prompt.
      replace (nonempty (indent ++ py "# " ++ _)) with true
        by now destruct indent.
      now rewrite (lstrip_app_ws _ _ Hws).
    + intros _. now exists indent, rest.
  - split; [exact Hm|]. split; [reflexivity | discriminate].
Qed.

End Preamble.

Lemma strip_task_preamble_keeps_kind_witness :
  (exists indent rest,
     py "  # Install Nginx & Start it" = indent ++ hash :: rest
     /\ forallb isspace indent = true
     /\ strip_task_preamble_from_multi_task_prompt SampleText.ascii_lower
          (py "  # Install Nginx & Start it")
        = indent ++ py "# "
          ++ join (py " & ")
               (map SampleText.ascii_lower
                  (get_task_names_from_prompt (py "  # Install Nginx & Start it"))))
  /\ strip_task_preamble_from_multi_task_prompt SampleText.ascii_lower
       (py "  # Install Nginx & Start it")
     = py "  # install nginx & start it"
  /\ is_multi_task_prompt
       (strip_task_preamble_from_multi_task_prompt SampleText.ascii_lower
          (py "  # Install Nginx & Start it"))
     = true
  /\ strip_task_preamble_from_multi_task_prompt SampleText.ascii_lower
       (py "- name: x")
     = py "- name: x".
Proof.
  destruct (strip_task_preamble_keeps_kind SampleText.ascii_lower
              (py "  # Install Nginx & Start it")) as (H1 & _ & H3).
  destruct (strip_task_preamble_keeps_kind SampleText.ascii_lower
              (py "- name: x")) as (_ & H2 & _).
  split; [apply H3; vm_compute; reflexivity|].
  split; [vm_compute; reflexivity|].
  split; [rewrite H1; vm_compute; reflexivity|].
  apply H2. vm_compute. reflexivity.
Defined.

(** ** [restore_indentation] *)

Lemma splitlines_acc_nonempty (s line : str) :
  s <> [] \/ line <> [] -> splitlines_acc line s <> [].
Proof.
  revert line. induction s as [|c s IH]; intros line H.
  - cbn. destruct line; [destruct H; congruence | discriminate].
  - cbn [splitlines_acc]. destruct (is_linebreak c); [discriminate|].
    apply IH. right. discriminate.
Qed.

Lemma splitlines_acc_no_linebreak (s : str) :
  forall line, no_linebreak line -> Forall no_linebreak (splitlines_acc line s).
Proof.
  assert (Hrev : forall l, no_linebreak l -> no_linebreak (rev l)).
  { unfold no_linebreak. intros l H. rewrite forallb_forall in *.
    intros x Hx. apply H. now apply in_rev. }
  assert (Hn : forall n s, length s <= n ->
               forall line, no_linebreak line ->
               Forall no_linebreak (splitlines_acc line s)).
  { clear s. induction n as [|n IH]; intros s Hlen line Hl.
    - destruct s; [|simpl in Hlen; lia]. cbn [splitlines_acc].
      destruct line; constructor; [now apply Hrev | constructor].
    - destruct s as [|c s]; cbn [splitlines_acc].
      + destruct line; constructor; [now apply Hrev | constructor].
      + simpl in Hlen. destruct (is_linebreak c) eqn:E.
        * constructor; [now apply Hrev|].
          destruct s as [|d s'].
          -- constructor.
          -- destruct ((c =? 13)%N && (d =? 10)%N).
             ++ apply IH; [simpl in Hlen; lia | reflexivity].
             ++ apply IH; [lia | reflexivity].
        * apply IH; [lia|]. unfold no_linebreak. cbn [forallb].
          now rewrite E, Hl. }
  exact (Hn (length s) s (Nat.le_refl _)).
Qed.

Lemma splitlines_acc_line (l : str) :
  no_linebreak l ->
  forall acc t, splitlines_acc acc (l ++ t) = splitlines_acc (rev l ++ acc) t.
Proof.
  unfold no_linebreak. induction l as [|c l IH]; intros Hl acc t; [reflexivity|].
  cbn [forallb] in Hl. apply andb_true_iff in Hl as [Hc Hl].
  apply negb_true_iff in Hc. cbn [app splitlines_acc]. rewrite Hc, (IH Hl).
  cbn [rev]. now rewrite <- app_assoc.
Qed.

(** The first line of joined lines is the first of them. *)
Lemma splitlines_join_head (l : str) (ls : list str) :
  no_linebreak l -> join [nl] (l :: ls) <> [] ->
  exists tail, splitlines (join [nl] (l :: ls)) = l :: tail.
Proof.
  intros Hl Hne. unfold splitlines. destruct ls as [|l2 ls].
  - cbn [join] in *.
    replace (splitlines_acc [] l) with (splitlines_acc [] (l ++ []))
      by now rewrite app_nil_r.
    rewrite (splitlines_acc_line l Hl). cbn [splitlines_acc]. rewrite app_nil_r.
    destruct (rev l) eqn:E.
    + apply (f_equal (@rev char)) in E. rewrite rev_involutive in E.
      simpl in E. congruence.
    + exists []. now rewrite <- E, rev_involutive.
  - change (join [nl] (l :: l2 :: ls)) with (l ++ nl :: join [nl] (l2 :: ls)).
    rewrite (splitlines_acc_line l Hl). cbn [splitlines_acc].
    replace (is_linebreak nl) with true by reflexivity.
    rewrite app_nil_r, rev_involutive.
    destruct (join [nl] (l2 :: ls)); eexists; reflexivity.
Qed.

Lemma indent_of_length (line : str) :
  exists ws, line = ws ++ lstrip line /\ forallb isspace ws = true
             /\ length ws = indent_of line.
Proof.
  destruct (lstrip_split line) as (ws & Hs & Hws). exists ws.
  split; [exact Hs|]. split; [exact Hws|].
  pose proof (f_equal (@length char) Hs) as Hlen.
  rewrite length_app in Hlen. unfold indent_of. lia.
Qed.

Lemma indent_of_padded (k : nat) (line : str) :
  indent_of (repeat space k ++ line) = k + indent_of line.
Proof.
  destruct (indent_of_length line) as (ws & Hs & Hws & Hlen).
  unfold indent_of. rewrite lstrip_app_ws.
  - rewrite length_app, repeat_length.
    pose proof (f_equal (@length char) Hs) as Hl.
    rewrite length_app in Hl. lia.
  - apply forallb_forall. intros x Hx. apply repeat_spec in Hx. now subst x.
Qed.

Lemma indent_of_cut (e : nat) (line : str) :
  e <= indent_of line -> indent_of (skipn e line) = indent_of line - e.
Proof.
  destruct (indent_of_length line) as (ws & Hs & Hws & Hlen). intros He.
  assert (Hcut : skipn e line = skipn e ws ++ lstrip line).
  { rewrite Hs at 1. rewrite skipn_app.
    replace (e - length ws) with 0 by lia. reflexivity. }
  unfold indent_of at 1. rewrite Hcut, lstrip_app_ws.
  - rewrite (lstrip_fix _ (lstrip_starts line)), length_app, length_skipn. lia.
  - rewrite forallb_forall in *. intros x Hx. apply Hws.
    rewrite <- (firstn_skipn e ws). apply in_or_app. now right.
Qed.

Lemma no_linebreak_padded (k : nat) (line : str) :
  no_linebreak line -> no_linebreak (repeat space k ++ line).
Proof.
  unfold no_linebreak. intros H. rewrite forallb_app, H, andb_true_r.
  apply forallb_forall. intros x Hx. apply repeat_spec in Hx. now subst x.
Qed.

Lemma no_linebreak_cut (e : nat) (line : str) :
  no_linebreak line -> no_linebreak (skipn e line).
Proof.
  unfold no_linebreak. intros H. rewrite forallb_forall in *. intros x Hx.
  apply H. rewrite <- (firstn_skipn e line). apply in_or_app. now right.
Qed.

Lemma splitlines_join_head_or_empty (l : str) (ls : list str) :
  no_linebreak l ->
  join [nl] (l :: ls) = []
  \/ exists tail, splitlines (join [nl] (l :: ls)) = l :: tail.
Proof.
  intros Hl. destruct (join [nl] (l :: ls)) as [|c j] eqn:Ej; [now left|].
  right. rewrite <- Ej. apply splitlines_join_head; [exact Hl|].
  rewrite Ej. discriminate.
Qed.

Lemma join_cons_nonempty (sep l : str) (ls : list str) :
  l <> [] -> join sep (l :: ls) <> [].
Proof.
  intros Hl. destruct l as [|c l]; [congruence|].
  destruct ls; discriminate.
Qed.

(** What [restore_indentation] returns: a text, and unless that text is
    empty its first line is indented by [original_indent]. *)
Lemma restore_indentation_first_line (yaml : str) (original_indent : Z) :
  exists r,
    restore_indentation yaml original_indent = Ok r
    /\ (yaml <> [] -> (0 <= original_indent)%Z ->
        r = [] \/ exists first rest,
                    splitlines r = first :: rest
                    /\ Z.of_nat (indent_of first) = original_indent).
Proof.
  unfold restore_indentation. destruct yaml as [|x yaml].
  - exists []. split; [reflexivity | congruence].
  - cbn [nonempty].
    assert (Hne : splitlines_acc [] (x :: yaml) <> []).
    { apply splitlines_acc_nonempty. left. discriminate. }
    pose proof (splitlines_acc_no_linebreak (x :: yaml) [] eq_refl) as Hnl.
    fold (splitlines (x :: yaml)) in Hne, Hnl.
    destruct (splitlines (x :: yaml)) as [|first rest] eqn:El; [congruence|].
    inversion Hnl as [|? ? Hfirst _]; subst.
    destruct (Z.ltb_spec (Z.of_nat (indent_of first)) original_indent) as [Hlt|Hge].
    + eexists. split; [reflexivity|]. intros _ Hpos. right.
      cbn [map].
      set (k := Z.to_nat (original_indent - Z.of_nat (indent_of first))).
      destruct (splitlines_join_head (repeat space k ++ first)
                  (map (fun line => repeat space k ++ line) rest))
        as [tail Ht].
      * now apply no_linebreak_padded.
      * apply join_cons_nonempty.
        assert (Hk : k <> 0) by (unfold k; lia).
        destruct k; [congruence | discriminate].
      * exists (repeat space k ++ first), tail. split; [exact Ht|].
        rewrite indent_of_padded. unfold k. lia.
    + destruct (Z.ltb_spec original_indent (Z.of_nat (indent_of first))) as [Hgt|Hle].
      * eexists. split; [reflexivity|]. intros _ Hpos. cbn [map].
        set (e := Z.to_nat (Z.of_nat (indent_of first) - original_indent)).
        destruct (splitlines_join_head_or_empty (skipn e first)
                    (map (fun line => skipn e line) rest)
                    (no_linebreak_cut e first Hfirst))
          as [Hempty | [tail Ht]]; [now left|].
        right. exists (skipn e first), tail. split; [exact Ht|].
        rewrite indent_of_cut; unfold e; lia.
      * exists (x :: yaml). split; [reflexivity|]. intros _ _. right.
        exists first, rest. split; [exact El | lia].
Qed.

(** X9: [restore_indentation] never raises (a non-empty text always has a
    first line), and for a non-empty text and a non-negative target the
    first line of a non-empty result is indented by exactly the target. *)
Theorem restore_indentation_indents (yaml : str) (original_indent : Z) :
  (exists r, restore_indentation yaml original_indent = Ok r)
  /\ (yaml <> [] -> (0 <= original_indent)%Z ->
      forall r, restore_indentation yaml original_indent = Ok r ->
      r = [] \/ exists first rest,
                  splitlines r = first :: rest
                  /\ Z.of_nat (indent_of first) = original_indent).
Proof.
  destruct (restore_indentation_first_line yaml original_indent) as (r & Hr & H).
  split; [now exists r|].
  intros Hne Hpos r' Hr'. rewrite Hr in Hr'. injection Hr' as <-. now apply H.
Qed.

Lemma restore_indentation_indents_witness :
  restore_indentation (py "- name: a" ++ [nl] ++ py "  b: c") 4
  = Ok (py "    - name: a" ++ [nl] ++ py "      b: c")
  /\ (py "    - name: a" ++ [nl] ++ py "      b: c" = []
      \/ exists first rest,
           splitlines (py "    - name: a" ++ [nl] ++ py "      b: c")
           = first :: rest
           /\ Z.of_nat (indent_of first) = 4%Z).
Proof.
  assert (H : restore_indentation (py "- name: a" ++ [nl] ++ py "  b: c") 4
              = Ok (py "    - name: a" ++ [nl] ++ py "      b: c"))
    by (vm_compute; reflexivity).
  split; [exact H|].
  apply (proj2 (restore_indentation_indents
                  (py "- name: a" ++ [nl] ++ py "  b: c") 4)).
  - discriminate.
  - lia.
  - exact H.
Defined.

(** X10: restoring the indentation of a restored text changes nothing. *)
Theorem restore_indentation_idempotent (yaml : str) (original_indent : Z)
    (r : str) :
  (0 <= original_indent)%Z ->
  restore_indentation yaml original_indent = Ok r ->
  restore_indentation r original_indent = Ok r.
Proof.
  intros Hpos Hr.
  destruct (restore_indentation_first_line yaml original_indent) as (r' & Hr' & H).
  rewrite Hr in Hr'. injection Hr' as <-.
  destruct yaml as [|x yaml].
  - cbn in Hr. injection Hr as <-. reflexivity.
  - destruct (H ltac:(discriminate) Hpos) as [-> | (first & rest & Hs & Hi)];
      [reflexivity|].
    unfold restore_indentation. destruct (nonempty r); [|reflexivity].
    rewrite Hs, Hi, !Z.ltb_irrefl. reflexivity.
Qed.

Lemma restore_indentation_idempotent_witness :
  restore_indentation (py "    - name: a" ++ [nl] ++ py "      b: c") 4
  = Ok (py "    - name: a" ++ [nl] ++ py "      b: c").
Proof.
  apply (restore_indentation_idempotent
           (py "- name: a" ++ [nl] ++ py "  b: c") 4).
  - lia.
  - vm_compute. reflexivity.
Defined.

(** ** [restore_original_task_names] and the two-space task line *)

Lemma replace_absent (old new s : str) :
  old <> [] -> find_split old s = None -> replace old new s = s.
Proof.
  intros Hne Hnone. unfold replace, replace_count.
  destruct old as [|c old]; [congruence|].
  cbn [replace_fuel]. now rewrite Hnone.
Qed.

Lemma find_split_none_longer (m n s : str) :
  find_split m s = None -> find_split (m ++ n) s = None.
Proof.
  intros Hnone. destruct (find_split (m ++ n) s) as [[b a]|] eqn:E;
    [|reflexivity].
  exfalso. apply find_split_some in E.
  apply (find_split_none _ _ Hnone b (n ++ a)).
  now rewrite E, <- !app_assoc.
Qed.

Section RestoreMarker.

Context {Y : YamlLib}.

Lemma restore_task_names_from_absent (names : list str) (out : str) :
  find_split (py "- name:  ") out = None ->
  forall tasks i r,
    restore_task_names_from names i tasks out = Ok r -> r = out.
Proof.
  intros Hnone. induction tasks as [|task tasks IH]; intros i r.
  - cbn. now intros H; injection H as <-.
  - cbn [restore_task_names_from].
    destruct (py_get task (py "name") (PStr [])) as [v|e]; cbn [bind];
      [|discriminate].
    destruct v as [| | |task_name| |]; try discriminate.
    destruct (nth_error names i) as [n|]; [|now intros H; injection H as <-].
    rewrite replace_absent.
    + apply IH.
    + discriminate.
    + now apply find_split_none_longer.
Qed.

(** X11: the names are restored on task lines written [- name:  ], with two
    spaces, only: when that text does not occur in [output_yaml], whatever
    the call returns is [output_yaml] itself. *)
Theorem restore_original_task_names_needs_two_spaces
    (output_yaml prompt payload_context r : str) :
  find_split (py "- name:  ") output_yaml = None ->
  restore_original_task_names output_yaml prompt payload_context = Ok r ->
  r = output_yaml.
Proof.
  intros Hnone. unfold restore_original_task_names.
  destruct (nonempty output_yaml && is_multi_task_prompt prompt);
    [|now intros H; injection H as <-].
  destruct (yaml_load payload_context) as [pcd|e];
    [|now intros H; injection H as <-].
  destruct (yaml_load (payload_context ++ output_yaml)) as [fd|e];
    [|now intros H; injection H as <-].
  destruct (py_len _) as [n|e]; cbn [bind]; [|discriminate].
  destruct (py_slice_from _ n) as [tasks|e]; cbn [bind]; [|discriminate].
  now apply restore_task_names_from_absent.
Qed.

End RestoreMarker.

Lemma restore_original_task_names_needs_two_spaces_witness :
  restore_original_task_names (Y := SampleText.yaml)
    (Sample.lines ["- name: Install"%string; "- name: Start"%string])
    (py "# install nginx & start it") []
  = Ok (Sample.lines ["- name: Install"%string; "- name: Start"%string]).
Proof.
  assert (H : exists r,
            restore_original_task_names (Y := SampleText.yaml)
              (Sample.lines ["- name: Install"%string; "- name: Start"%string])
              (py "# install nginx & start it") [] = Ok r)
    by (eexists; vm_compute; reflexivity).
  destruct H as [r Hr]. rewrite Hr. f_equal.
  apply (restore_original_task_names_needs_two_spaces (Y := SampleText.yaml)
           _ (py "# install nginx & start it") [] r); [|exact Hr].
  vm_compute. reflexivity.
Defined.

(** ** Merging the variables of the context *)

(** In [a | b] the entries of [b] win. *)
Lemma dict_get_or (b : dict) :
  dict_wf b = true ->
  forall a k,
    dict_get (dict_or a b) k
    = match dict_get b k with Some v => Some v | None => dict_get a k end.
Proof.
  unfold dict_or. induction b as [|[k1 v1] b IH]; intros Hw a k; [reflexivity|].
  cbn [dict_wf] in Hw. apply andb_true_iff in Hw as [Hk1 Hw].
  apply negb_true_iff in Hk1.
  cbn [fold_left fst snd dict_get]. rewrite (IH Hw), dict_get_set.
  destruct (key_eqb k1 k) eqn:E; [|reflexivity].
  unfold dict_mem in Hk1. rewrite (dict_get_eqb b _ _ E) in Hk1.
  now destruct (dict_get b k).
Qed.

Section MergeVars.

Context {Y : YamlLib}.

Lemma load_and_merge_from_app (vs ws : list pyval) :
  forall m,
    load_and_merge_vars_in_context_from m (vs ++ ws)
    = bind (load_and_merge_vars_in_context_from m vs)
           (fun m' => load_and_merge_vars_in_context_from m' ws).
Proof.
  induction vs as [|v vs IH]; intros m; [reflexivity|].
  cbn [app load_and_merge_vars_in_context_from].
  destruct (yaml_load_obj v) as [loaded|e]; cbn [bind]; [|reflexivity].
  destruct (dict_ior m loaded) as [m'|e]; cbn [bind]; [|reflexivity].
  apply IH.
Qed.

(** X12: in [load_and_merge_vars_in_context] a later file overrides the
    earlier ones: after one more file that loads to a mapping, a variable
    has the value this file gives it, and otherwise the value it had. *)
Theorem load_and_merge_later_wins (vars_in_context : list pyval)
    (merged : dict) (text : str) (loaded : dict) :
  load_and_merge_vars_in_context vars_in_context = Ok merged ->
  yaml_load text = Ok (PDict loaded) ->
  dict_wf loaded = true ->
  exists merged',
    load_and_merge_vars_in_context (vars_in_context ++ [PStr text]) = Ok merged'
    /\ forall k,
         dict_get merged' k
         = match dict_get loaded k with
           | Some v => Some v
           | None => dict_get merged k
           end.
Proof.
  unfold load_and_merge_vars_in_context. intros Hm Hl Hw.
  rewrite load_and_merge_from_app, Hm. cbn [bind].
  cbn [load_and_merge_vars_in_context_from yaml_load_obj]. rewrite Hl.
  cbn [bind dict_ior]. eexists. split; [reflexivity|].
  intros k. now apply dict_get_or.
Qed.

End MergeVars.

Lemma load_and_merge_later_wins_witness :
  exists merged',
    load_and_merge_vars_in_context (Y := SampleText.yaml)
      ([PStr (py "a: 1")]
       ++ [PStr (Sample.lines ["a: 2"%string; "b: 3"%string])]) = Ok merged'
    /\ forall k,
         dict_get merged' k
         = match dict_get [(KStr (py "a"), PInt 2); (KStr (py "b"), PInt 3)] k with
           | Some v => Some v
           | None => dict_get [(KStr (py "a"), PInt 1)] k
           end.
Proof.
  apply (load_and_merge_later_wins (Y := SampleText.yaml)
           [PStr (py "a: 1")] [(KStr (py "a"), PInt 1)]).
  - vm_compute. reflexivity.
  - vm_compute. reflexivity.
  - vm_compute. reflexivity.
Defined.

(** ** Expansion of task lists *)

Section ExpandTasks.

Context {Y : YamlLib}.

Lemma insert_set_fact_task_cases (data : pyval) (merged : dict) (data' : pyval) :
  insert_set_fact_task data merged = Ok data' ->
  set_fact_prepended merged data data'.
Proof.
  unfold insert_set_fact_task, set_fact_prepended.
  destruct merged as [|e merged]; cbn [truthy].
  - intros H; injection H as <-. now left.
  - destruct data as [| | | |l|]; try discriminate.
    intros H; injection H as <-. right.
    split; [discriminate | now exists l].
Qed.

Lemma no_merged_vars (merged : dict) :
  Nat.ltb 0 (length merged) = false -> merged = [].
Proof. now destruct merged. Qed.

(** X13: for the file type [tasks] the variables are merged from the
    values of [standaloneTaskContext.includeVars], and for [tasks_in_role]
    from the values of [roleContext.roleVars.defaults], then those of
    [roleContext.roleVars.vars], then those of [roleContext.includeVars],
    so that a later one overrides.  When [expand_vars_files] returns, the
    document is unchanged if the merged variables are empty, and otherwise
    it is the task list with exactly one task put in front, the [set_fact]
    task named [Set variables from context] that holds the merged
    variables; the tasks that were there follow in their order. *)
Theorem expand_vars_files_tasks_prepends
    (data additional_context data' : pyval) :
  (expand_vars_files data (py "tasks") additional_context = Ok data' ->
   exists include_vars merged,
     context_values [py "standaloneTaskContext"; py "includeVars"]
       additional_context = Ok include_vars
     /\ load_and_merge_vars_in_context include_vars = Ok merged
     /\ set_fact_prepended merged data data')
  /\ (expand_vars_files data (py "tasks_in_role") additional_context = Ok data' ->
      exists role_vars_defaults role_vars include_vars merged,
        context_values [py "roleContext"; py "roleVars"; py "defaults"]
          additional_context = Ok role_vars_defaults
        /\ context_values [py "roleContext"; py "roleVars"; py "vars"]
             additional_context = Ok role_vars
        /\ context_values [py "roleContext"; py "includeVars"]
             additional_context = Ok include_vars
        /\ load_and_merge_vars_in_context
             (role_vars_defaults ++ role_vars ++ include_vars) = Ok merged
        /\ set_fact_prepended merged data data').
Proof.
  unfold expand_vars_files. cbn [context_values]. split.
  - replace (str_eqb (py "tasks") (py "playbook")) with false by reflexivity.
    replace (str_eqb (py "tasks") (py "tasks_in_role")) with false by reflexivity.
    replace (str_eqb (py "tasks") (py "tasks")) with true by reflexivity.
    unfold expand_vars_tasks.
    destruct (py_get additional_context _ _) as [c|e]; cbn [bind]; [|discriminate].
    destruct (py_get c _ _) as [m|e]; cbn [bind]; [|discriminate].
    destruct (py_values m) as [vs|e]; cbn [bind]; [|discriminate].
    destruct (load_and_merge_vars_in_context vs) as [mv|e] eqn:Em; cbn [bind];
      [|discriminate].
    intros H. exists vs, mv. split; [reflexivity|]. split; [exact Em|].
    destruct (Nat.ltb 0 (length mv)) eqn:El.
    + now apply insert_set_fact_task_cases.
    + injection H as <-. left. split; [now apply no_merged_vars | reflexivity].
  - replace (str_eqb (py "tasks_in_role") (py "playbook")) with false
      by reflexivity.
    replace (str_eqb (py "tasks_in_role") (py "tasks_in_role")) with true
      by reflexivity.
    unfold expand_vars_tasks_in_role.
    destruct (py_get additional_context _ _) as [c|e]; cbn [bind]; [|discriminate].
    destruct (py_get c (py "roleVars") _) as [rv|e]; cbn [bind]; [|discriminate].
    destruct (py_get rv (py "vars") _) as [vm|e]; cbn [bind]; [|discriminate].
    destruct (py_values vm) as [vs|e]; cbn [bind]; [|discriminate].
    destruct (py_get rv (py "defaults") _) as [dm|e]; cbn [bind]; [|discriminate].
    destruct (py_values dm) as [ds|e]; cbn [bind]; [|discriminate].
    destruct (py_get c (py "includeVars") _) as [im|e]; cbn [bind]; [|discriminate].
    destruct (py_values im) as [ivs|e]; cbn [bind]; [|discriminate].
    destruct (load_and_merge_vars_in_context _) as [mv|e] eqn:Em; cbn [bind];
      [|discriminate].
    intros H. exists ds, vs, ivs, mv. repeat (split; [reflexivity|]).
    split; [exact Em|].
    destruct (Nat.ltb 0 (length mv)) eqn:El.
    + now apply insert_set_fact_task_cases.
    + injection H as <-. left. split; [now apply no_merged_vars | reflexivity].
Qed.

End ExpandTasks.

Lemma expand_vars_files_tasks_prepends_witness :
  (exists include_vars merged,
     context_values [py "standaloneTaskContext"; py "includeVars"]
       SampleText.context_with_include_vars = Ok include_vars
     /\ load_and_merge_vars_in_context (Y := SampleText.yaml) include_vars
        = Ok merged
     /\ set_fact_prepended merged SampleText.two_tasks
          (PList (set_fact_task [(KStr (py "a"), PInt 1)]
                  :: [Sample.task "Install"; Sample.task "Start"])))
  /\ (exists role_vars_defaults role_vars include_vars merged,
        context_values [py "roleContext"; py "roleVars"; py "defaults"]
          SampleText.context_with_role_vars = Ok role_vars_defaults
        /\ context_values [py "roleContext"; py "roleVars"; py "vars"]
             SampleText.context_with_role_vars = Ok role_vars
        /\ context_values [py "roleContext"; py "includeVars"]
             SampleText.context_with_role_vars = Ok include_vars
        /\ load_and_merge_vars_in_context (Y := SampleText.yaml)
             (role_vars_defaults ++ role_vars ++ include_vars) = Ok merged
        /\ set_fact_prepended merged SampleText.two_tasks
             (PList (set_fact_task [(KStr (py "a"), PInt 2);
                                    (KStr (py "b"), PInt 3)]
                     :: [Sample.task "Install"; Sample.task "Start"]))).
Proof.
  split.
  - apply (proj1 (expand_vars_files_tasks_prepends (Y := SampleText.yaml)
                    SampleText.two_tasks SampleText.context_with_include_vars _)).
    vm_compute. reflexivity.
  - apply (proj2 (expand_vars_files_tasks_prepends (Y := SampleText.yaml)
                    SampleText.two_tasks SampleText.context_with_role_vars _)).
    vm_compute. reflexivity.
Defined.

(** ** Expansion of one play *)

Section ExpandPlay.

Context {Y : YamlLib}.

Lemma rev_keys_snoc (d0 : dict) (k : pykey) (v : pyval) :
  rev (dict_keys (d0 ++ [(k, v)])) = k :: rev (dict_keys d0).
Proof. unfold dict_keys. now rewrite map_app, rev_app_distr. Qed.

Lemma dict_mem_false_get (d : dict) (k : pykey) :
  dict_mem d k = false -> dict_get d k = None.
Proof. unfold dict_mem. now destruct (dict_get d k). Qed.

Lemma wf_snoc_absent (d0 : dict) (k : pykey) (v : pyval) :
  dict_wf (d0 ++ [(k, v)]) = true -> dict_mem d0 k = false.
Proof.
  intros Hw. destruct (dict_wf_app _ _ Hw) as (_ & _ & Hd).
  apply Hd. rewrite dict_mem_cons. now rewrite key_eqb_refl.
Qed.

(** X14: a play without [vars_files] whose last key is [vars] comes out of
    the expansion exactly as it went in: the merged variables are first
    stored under [vars] and then overwritten by the value put back. *)
Theorem expand_play_vars_last (merged_vars : dict)
    (var_infile_keys : list pykey) (d : dict) :
  dict_wf d = true ->
  last_key d = Some vars_key ->
  dict_mem d vars_files_key = false ->
  expand_play merged_vars var_infile_keys (PDict d) = Ok (PDict d).
Proof.
  intros Hw Hl Hvf.
  destruct (last_key_split d vars_key Hl) as (d0 & lv & ->).
  pose proof (wf_snoc_absent _ _ _ Hw) as Hk.
  unfold expand_play. cbn [py_keys bind]. rewrite rev_keys_snoc.
  unfold dict_pop. rewrite (dict_get_snoc d0 vars_key lv Hk).
  rewrite (dict_del_snoc d0 vars_key lv Hk). cbn [bind].
  fold vars_key. rewrite (dict_mem_false_get _ _ Hk). cbn [bind].
  rewrite (dict_set_absent d0 vars_key (PDict merged_vars) Hk).
  assert (Hset : dict_set (d0 ++ [(vars_key, PDict merged_vars)]) vars_key lv
                 = d0 ++ [(vars_key, lv)]).
  { clear -Hk. induction d0 as [|[k1 v1] d0 IH]; cbn [app dict_set].
    - now rewrite key_eqb_refl.
    - rewrite dict_mem_cons in Hk. apply orb_false_iff in Hk as [-> Hk].
      now rewrite IH. }
  rewrite Hset. fold vars_files_key.
  now rewrite (dict_mem_false_get _ _ Hvf).
Qed.

(** X15: a play without [vars] and without [vars_files], whose last key is
    not [vars], gets the merged variables as [vars] right before its last
    key; nothing else changes. *)
Theorem expand_play_inserts_vars (merged_vars : dict)
    (var_infile_keys : list pykey) (d0 : dict) (k : pykey) (v : pyval) :
  dict_wf (d0 ++ [(k, v)]) = true ->
  dict_mem (d0 ++ [(k, v)]) vars_key = false ->
  dict_mem (d0 ++ [(k, v)]) vars_files_key = false ->
  expand_play merged_vars var_infile_keys (PDict (d0 ++ [(k, v)]))
  = Ok (PDict (d0 ++ [(vars_key, PDict merged_vars); (k, v)])).
Proof.
  intros Hw Hv Hvf.
  pose proof (wf_snoc_absent _ _ _ Hw) as Hk.
  rewrite dict_mem_app, dict_mem_cons in Hv, Hvf.
  apply orb_false_iff in Hv as [Hv0 Hvk]. apply orb_false_iff in Hvk as [Hvk _].
  apply orb_false_iff in Hvf as [Hf0 Hfk]. apply orb_false_iff in Hfk as [Hfk _].
  unfold expand_play. cbn [py_keys bind]. rewrite rev_keys_snoc.
  unfold dict_pop. rewrite (dict_get_snoc d0 k v Hk), (dict_del_snoc d0 k v Hk).
  cbn [bind]. fold vars_key. rewrite (dict_mem_false_get _ _ Hv0). cbn [bind].
  rewrite (dict_set_absent d0 vars_key (PDict merged_vars) Hv0).
  rewrite dict_set_absent.
  2:{ rewrite dict_mem_app, Hk, dict_mem_cons. cbn [orb].
      rewrite key_eqb_sym, Hvk. reflexivity. }
  fold vars_files_key.
  rewrite dict_mem_false_get.
  - now rewrite <- app_assoc.
  - rewrite !dict_mem_app, Hf0, !dict_mem_cons. cbn [orb].
    replace (key_eqb vars_key vars_files_key) with false by reflexivity.
    now rewrite Hfk.
Qed.

(** X16: in a play without [vars_files] whose last key is not [vars] and
    whose [vars] is a mapping, [vars] keeps its place and becomes the old
    mapping updated with the merged variables, which win on a common
    name; nothing else changes. *)
Theorem expand_play_updates_vars (merged_vars old : dict)
    (var_infile_keys : list pykey) (d0 : dict) (k : pykey) (v : pyval) :
  dict_wf (d0 ++ [(k, v)]) = true ->
  dict_wf merged_vars = true ->
  key_eqb k vars_key = false ->
  dict_get d0 vars_key = Some (PDict old) ->
  dict_mem (d0 ++ [(k, v)]) vars_files_key = false ->
  expand_play merged_vars var_infile_keys (PDict (d0 ++ [(k, v)]))
  = Ok (PDict (dict_set d0 vars_key (PDict (dict_or old merged_vars))
               ++ [(k, v)]))
  /\ dict_keys (dict_set d0 vars_key (PDict (dict_or old merged_vars)))
     = dict_keys d0
  /\ forall name,
       dict_get (dict_or old merged_vars) name
       = match dict_get merged_vars name with
         | Some x => Some x
         | None => dict_get old name
         end.
Proof.
  intros Hw Hwm Hkv Hold Hvf.
  pose proof (wf_snoc_absent _ _ _ Hw) as Hk.
  rewrite dict_mem_app, dict_mem_cons in Hvf.
  apply orb_false_iff in Hvf as [Hf0 Hfk]. apply orb_false_iff in Hfk as [Hfk _].
  assert (Hmem : dict_mem d0 vars_key = true)
    by (unfold dict_mem; now rewrite Hold).
  split; [|split].
  - unfold expand_play. cbn [py_keys bind]. rewrite rev_keys_snoc.
    unfold dict_pop. rewrite (dict_get_snoc d0 k v Hk), (dict_del_snoc d0 k v Hk).
    cbn [bind]. fold vars_key. rewrite Hold. cbn [bind].
    rewrite dict_set_absent.
    2:{ rewrite dict_mem_set, Hk. cbn [orb]. now rewrite key_eqb_sym. }
    fold vars_files_key. rewrite dict_mem_false_get; [reflexivity|].
    rewrite dict_mem_app, dict_mem_set, Hf0, dict_mem_cons. cbn [orb].
    replace (key_eqb vars_key vars_files_key) with false by reflexivity.
    now rewrite Hfk.
  - now apply dict_set_keys.
  - intros name. now apply dict_get_or.
Qed.

End ExpandPlay.

Lemma expand_play_vars_last_witness :
  expand_play [(KStr (py "a"), PInt 1)] []
    (PDict [(KStr (py "hosts"), PStr (py "all"));
            (vars_key, PDict [(KStr (py "x"), PInt 0)])])
  = Ok (PDict [(KStr (py "hosts"), PStr (py "all"));
               (vars_key, PDict [(KStr (py "x"), PInt 0)])]).
Proof.
  apply expand_play_vars_last; vm_compute; reflexivity.
Defined.

Lemma expand_play_inserts_vars_witness :
  expand_play [(KStr (py "a"), PInt 1)] []
    (PDict ([(KStr (py "hosts"), PStr (py "all"))]
            ++ [(KStr (py "tasks"), PList [])]))
  = Ok (PDict ([(KStr (py "hosts"), PStr (py "all"))]
               ++ [(vars_key, PDict [(KStr (py "a"), PInt 1)]);
                   (KStr (py "tasks"), PList [])])).
Proof.
  apply expand_play_inserts_vars;
    vm_compute; reflexivity.
Defined.

Lemma expand_play_updates_vars_witness :
  expand_play [(KStr (py "a"), PInt 1)] []
    (PDict ([(KStr (py "hosts"), PStr (py "all"));
             (vars_key, PDict [(KStr (py "a"), PInt 0); (KStr (py "x"), PInt 0)])]
            ++ [(KStr (py "tasks"), PList [])]))
  = Ok (PDict (dict_set [(KStr (py "hosts"), PStr (py "all"));
                         (vars_key, PDict [(KStr (py "a"), PInt 0);
                                           (KStr (py "x"), PInt 0)])]
                 vars_key
                 (PDict (dict_or [(KStr (py "a"), PInt 0); (KStr (py "x"), PInt 0)]
                                 [(KStr (py "a"), PInt 1)]))
               ++ [(KStr (py "tasks"), PList [])])).
Proof.
  apply expand_play_updates_vars;
    vm_compute; reflexivity.
Defined.

(** ** Consumed vars files *)

Lemma filter_filter {A} (f g : A -> bool) (l : list A) :
  filter f (filter g l) = filter (fun x => g x && f x) l.
Proof.
  induction l as [|x l IH]; [reflexivity|]. cbn [filter].
  destruct (g x); cbn [filter andb]; [|exact IH].
  destruct (f x); now rewrite IH.
Qed.

(** X17: from a [vars_files] list the loop over the [varInfiles] names
    removes exactly the entries equal to one of these names and keeps the
    others in their order. *)
Theorem drop_vars_files_filters (keys : list pykey) (files : list pyval) :
  drop_vars_files keys (PList files)
  = Ok (PList (filter (fun file => negb (existsb (val_eq_key file) keys)) files)).
Proof.
  revert files. induction keys as [|k keys IH]; intros files.
  - cbn [drop_vars_files existsb negb]. do 2 f_equal.
    induction files as [|x files IHf]; [reflexivity|]. cbn [filter].
    now rewrite <- IHf.
  - cbn [drop_vars_files drop_vars_file py_iter bind]. rewrite IH.
    do 2 f_equal. rewrite filter_filter. apply filter_ext. intros file.
    cbn [existsb]. now rewrite negb_orb.
Qed.

(** ** What the extractor returns *)

Section ExtractorMore.

Import Extractor.

Variable Task_mro : list pyclass.

Lemma ident_char_dot (c : char) : ident_char c = true -> ident_dot_char c = true.
Proof. unfold ident_char, ident_dot_char. intros ->. reflexivity. Qed.

Lemma run_dotted (a : str) : is_run ident_char a -> forallb ident_dot_char a = true.
Proof.
  intros [_ H]. rewrite forallb_forall in *. intros x Hx.
  now apply ident_char_dot, H.
Qed.

Lemma fqcn_value_dotted (v : str) : fqcn_value v -> dotted_name v.
Proof.
  intros (a & b & c & -> & Ha & Hb & Hc). split.
  - destruct a; discriminate.
  - rewrite forallb_app. cbn [forallb]. rewrite forallb_app. cbn [forallb].
    rewrite (run_dotted a Ha), (run_dotted b Hb), (run_dotted c Hc).
    reflexivity.
Qed.

Lemma extracted_value_declared (prediction : str)
    (cache : option (list str)) (v : str) :
  cache_ok Task_mro cache ->
  fst (get_fqcn_or_module_from_prediction Task_mro (Some prediction) cache)
  = Some v ->
  dotted_name v
  /\ exists pre post, prediction = pre ++ v ++ colon :: post.
Proof.
  intros Hc. rewrite (get_fqcn_or_module_from_prediction_eq Task_mro _ _ Hc).
  pose proof (finditer_first_declared fqcn_body prediction) as Hfq.
  rewrite <- fqcn_pattern_shape in Hfq.
  destruct (finditer ansible_fqcn_declaration_pattern prediction) as [|item items].
  - intros Hv. apply find_some in Hv as [Hin _].
    apply in_map_iff in Hin as (item & <- & Hin).
    destruct (finditer_in_declared _ _ _ Hin) as (pre & post & Hs & Hl).
    split; [exact (proj1 (lang_run _ _) Hl) | now exists pre, post].
  - intros Hv. injection Hv as <-.
    destruct Hfq as (pre & post & [Hs Hl] & _).
    split; [now apply fqcn_value_dotted, lang_fqcn_body | now exists pre, post].
Qed.

(** X18: whatever the extractor returns is a non-empty text made of
    [[a-z0-9_.]] only that stands in the prediction right before a colon. *)
Theorem extracted_value_is_declared (prediction : str)
    (cache : option (list str)) (v : str) :
  cache_ok Task_mro cache ->
  fst (get_fqcn_or_module_from_prediction Task_mro (Some prediction) cache)
  = Some v ->
  dotted_name v
  /\ exists pre post, prediction = pre ++ v ++ colon :: post.
Proof. apply extracted_value_declared. Qed.

(** X19: a prediction without any colon yields nothing. *)
Theorem no_colon_no_module (prediction : str) (cache : option (list str)) :
  cache_ok Task_mro cache ->
  ~ In colon prediction ->
  fst (get_fqcn_or_module_from_prediction Task_mro (Some prediction) cache)
  = None.
Proof.
  intros Hc Hno.
  destruct (fst (get_fqcn_or_module_from_prediction Task_mro (Some prediction)
                   cache)) as [v|] eqn:E; [|reflexivity].
  exfalso. destruct (extracted_value_declared prediction cache v Hc E)
    as (_ & pre & post & ->).
  apply Hno. apply in_or_app. right. apply in_or_app. right. now left.
Qed.

End ExtractorMore.

Lemma extracted_value_is_declared_witness :
  dotted_name (py "ansible.builtin.apt")
  /\ exists pre post,
       py "- name: x" ++ [nl] ++ py "  ansible.builtin.apt: y"
       = pre ++ py "ansible.builtin.apt" ++ colon :: post.
Proof.
  apply (extracted_value_is_declared Sample.task_mro
           (py "- name: x" ++ [nl] ++ py "  ansible.builtin.apt: y") None).
  - now left.
  - vm_compute. reflexivity.
Defined.

Lemma no_colon_no_module_witness :
  fst (Extractor.get_fqcn_or_module_from_prediction Sample.task_mro
         (Some (py "ansible.builtin.apt")) None) = None.
Proof.
  apply no_colon_no_module.
  - now left.
  - vm_compute. intuition discriminate.
Defined.

Section ExtractorCache.

Import Extractor.

Variable Task_mro : list pyclass.

Lemma parse_items_cache_ok (items : list match_obj) :
  forall cache, cache_ok Task_mro cache ->
  cache_ok Task_mro (snd (parse_items items (keyword_predicate Task_mro) cache)).
Proof.
  induction items as [|item items IH]; intros cache Hc; [exact Hc|].
  cbn [parse_items]. unfold keyword_predicate at 1.
  destruct (keywords_cached Task_mro cache Hc) as [_ Hc'].
  destruct (get_ansible_task_keywords Task_mro cache) as [kw c'].
  cbn [snd] in Hc'.
  destruct (set_mem (group item 1) kw); [now apply IH | exact Hc'].
Qed.

(** X20: the keyword cache does not show in the results: with the cache
    empty or filled the extractor returns the same value, and it leaves
    the cache empty or filled with the task keywords. *)
Theorem extractor_cache_transparent (prediction : option str)
    (cache : option (list str)) :
  cache_ok Task_mro cache ->
  fst (get_fqcn_or_module_from_prediction Task_mro prediction cache)
  = fst (get_fqcn_or_module_from_prediction Task_mro prediction None)
  /\ cache_ok Task_mro
       (snd (get_fqcn_or_module_from_prediction Task_mro prediction cache)).
Proof.
  intros Hc. destruct prediction as [p|]; [|split; [reflexivity | exact Hc]].
  split.
  - rewrite (get_fqcn_or_module_from_prediction_eq Task_mro p cache Hc).
    rewrite (get_fqcn_or_module_from_prediction_eq Task_mro p None);
      [reflexivity | now left].
  - unfold get_fqcn_or_module_from_prediction, _get_fqcn_from_prediction,
      _get_module_from_prediction, _parse_module_from_prediction.
    destruct (finditer ansible_fqcn_declaration_pattern p) as [|item items].
    + cbn [parse_items]. now apply parse_items_cache_ok.
    + exact Hc.
Qed.

End ExtractorCache.

Lemma extractor_cache_transparent_witness :
  fst (Extractor.get_fqcn_or_module_from_prediction Sample.task_mro
         (Some (py "when: x" ++ [nl] ++ py "apt:"))
         (Some (task_keywords Sample.task_mro)))
  = fst (Extractor.get_fqcn_or_module_from_prediction Sample.task_mro
           (Some (py "when: x" ++ [nl] ++ py "apt:")) None)
  /\ cache_ok Sample.task_mro
       (snd (Extractor.get_fqcn_or_module_from_prediction Sample.task_mro
               (Some (py "when: x" ++ [nl] ++ py "apt:"))
               (Some (task_keywords Sample.task_mro)))).
Proof.
  apply extractor_cache_transparent. now right.
Defined.

(** ** [extract_task] *)

(** The pieces of a split, put together again, are the text. *)
Lemma join_split_max (sep : str) (n : nat) :
  forall s, join sep (split_max n sep s) = s.
Proof.
  induction n as [|n IH]; intros s; cbn [split_max]; [reflexivity|].
  destruct (find_split sep s) as [[b a]|] eqn:E; [|reflexivity].
  pose proof (find_split_some _ _ _ _ E) as Hs.
  specialize (IH a).
  destruct (split_max n sep a) as [|x l] eqn:El.
  - destruct n; cbn [split_max] in El; [discriminate|].
    destruct (find_split sep a) as [[? ?]|]; discriminate.
  - change (join sep (b :: x :: l)) with (b ++ sep ++ join sep (x :: l)).
    now rewrite IH.
Qed.

Section ExtractTask.

Variable lower : str -> str.

Lemma extract_task_from_first (indent task_name : str)
    (skipped : list str) (piece : str) (later : list str) :
  Forall (fun p => startswith (lower task_name) (lower p) = false) skipped ->
  startswith (lower task_name) (lower piece) = true ->
  extract_task_from lower indent task_name (skipped ++ piece :: later)
  = Some (indent ++ py "- name: " ++ rstrip piece).
Proof.
  intros Hs Hp. induction Hs as [|p skipped Hp' _ IH]; cbn [app extract_task_from].
  - now rewrite Hp.
  - now rewrite Hp'.
Qed.

Lemma extract_task_from_none (indent task_name : str) (pieces : list str) :
  Forall (fun p => startswith (lower task_name) (lower p) = false) pieces ->
  extract_task_from lower indent task_name pieces = None.
Proof.
  intros H. induction H as [|p pieces Hp _ IH]; cbn [extract_task_from];
    [reflexivity | now rewrite Hp].
Qed.

(** X21: the text is cut at every [- name: ] into the part before the
    first one and the pieces that follow; put together with [- name: ]
    between them they are the text again.  [extract_task] returns the part
    before the first [- name: ], then [- name: ], then the first piece,
    right-trimmed, that starts with the wanted name when both are
    lowercased; it returns nothing when no piece does, in particular for a
    text without [- name: ]. *)
Theorem extract_task_shape (tasks task_name : str) :
  exists before pieces,
    split (py "- name: ") tasks = before :: pieces
    /\ join (py "- name: ") (before :: pieces) = tasks
    /\ (Forall (fun p => startswith (lower task_name) (lower p) = false) pieces ->
        extract_task lower tasks task_name = None)
    /\ (forall skipped piece later,
          pieces = skipped ++ piece :: later ->
          Forall (fun p => startswith (lower task_name) (lower p) = false)
                 skipped ->
          startswith (lower task_name) (lower piece) = true ->
          extract_task lower tasks task_name
          = Some (before ++ py "- name: " ++ rstrip piece))
    /\ (find_split (py "- name: ") tasks = None -> pieces = []).
Proof.
  unfold extract_task.
  pose proof (join_split_max (py "- name: ") (length tasks) tasks) as Hj.
  fold (split (py "- name: ") tasks) in Hj.
  assert (Hn : find_split (py "- name: ") tasks = None ->
               split (py "- name: ") tasks = [tasks]).
  { intros Hnone. unfold split. destruct (length tasks); cbn [split_max];
      [reflexivity | now rewrite Hnone]. }
  destruct (split (py "- name: ") tasks) as [|before pieces] eqn:Es.
  - exfalso. unfold split in Es. destruct (length tasks); cbn [split_max] in Es;
      [discriminate|].
    destruct (find_split (py "- name: ") tasks) as [[? ?]|]; discriminate.
  - exists before, pieces. cbn [nth tl].
    split; [reflexivity|]. split; [exact Hj|]. split; [|split].
    + apply extract_task_from_none.
    + intros skipped piece later ->. apply extract_task_from_first.
    + intros Hnone. specialize (Hn Hnone). now injection Hn as _ <-.
Qed.

End ExtractTask.

Lemma extract_task_shape_witness :
  extract_task SampleText.ascii_lower
    (Sample.lines ["  - name: Install nginx"%string;
                   "    ansible.builtin.apt:"%string;
                   "  - name: Start Nginx  "%string;
                   "    ansible.builtin.service:"%string])
    (py "start nginx")
  = Some (py "  - name: Start Nginx  " ++ [nl]
          ++ py "    ansible.builtin.service:").
Proof.
  destruct (extract_task_shape SampleText.ascii_lower
              (Sample.lines ["  - name: Install nginx"%string;
                             "    ansible.builtin.apt:"%string;
                             "  - name: Start Nginx  "%string;
                             "    ansible.builtin.service:"%string])
              (py "start nginx"))
    as (before & pieces & Hs & _ & _ & Hsome & _).
  rewrite (Hsome [nth 0 pieces []] (nth 1 pieces []) []).
  - vm_compute in Hs. injection Hs as <- <-. vm_compute. reflexivity.
  - vm_compute in Hs. injection Hs as _ <-. reflexivity.
  - vm_compute in Hs. injection Hs as _ <-.
    constructor; [vm_compute; reflexivity | constructor].
  - vm_compute in Hs. injection Hs as _ <-. vm_compute. reflexivity.
Defined.
